(** * qualityforge: the patch application tool

    A shallow embedding of [src/qualityforge/tools/apply_path.py]
    ([ApplyPatchTool]) and the properties its specification states.

    The embedding:
    - [Py]        the Python built-ins the tool calls (slices, [str] methods);
    - [Unidiff]   the attributes of the [unidiff] objects the tool reads;
    - [Hunks]     [_apply_single_hunk] and [_apply_hunks_to_content];
    - [Platform]  [pathlib] paths, the file system and the exceptions;
    - [Tool]      [_resolve_file_path], [_create_backup], the three handlers
                  and [_apply_single_file_patch];
    - [_parse_patch] and [apply_patches], over the parser of [unidiff].

    Then the notions the specification is worded with, the inputs of the
    worked examples, and the proofs, one block per property. *)

From Stdlib Require Import ZArith Lia Ascii String.
From stdpp Require Import base option list sorting gmap sets strings pretty.

Local Open Scope string_scope.
Local Open Scope list_scope.
Local Open Scope nat_scope.

(** ** Python built-ins *)

Module Py.

(** The line feed character and the one-character string ["\n"]. *)
Definition LF : ascii := "010"%char.
Definition CR : ascii := "013"%char.
Definition nl : string := String LF EmptyString.

(** [PySlice_AdjustIndices] for a step of 1: a negative index counts from
    the end, and every index is clipped to [0 .. len]. *)
Definition adjust_index (len i : Z) : Z :=
  if (i <? 0)%Z then Z.max 0 (i + len) else Z.min i len.

(** [l[start:stop]]; [None] is an omitted bound. *)
Definition slice {A} (l : list A) (start stop : option Z) : list A :=
  let len := Z.of_nat (length l) in
  let a := from_option (adjust_index len) 0%Z start in
  let b := from_option (adjust_index len) len stop in
  take (Z.to_nat (b - a)) (drop (Z.to_nat a) l).

(** [s.rstrip('\n')]: every trailing line feed is removed. *)
Fixpoint rstrip_nl (s : string) : string :=
  match s with
  | EmptyString => EmptyString
  | String c r =>
      match rstrip_nl r with
      | EmptyString => if Ascii.eqb c LF then EmptyString else String c EmptyString
      | r' => String c r'
      end
  end.

(** [sep.join(l)]. *)
Fixpoint join (sep : string) (l : list string) : string :=
  match l with
  | [] => EmptyString
  | [x] => x
  | x :: rest => x +:+ sep +:+ join sep rest
  end.

(** [s.endswith('\n')]. *)
Fixpoint endswith_nl (s : string) : bool :=
  match s with
  | EmptyString => false
  | String c EmptyString => Ascii.eqb c LF
  | String _ r => endswith_nl r
  end.

(** The truth value of a [str]: non-empty. *)
Definition truthy (s : string) : bool :=
  match s with EmptyString => false | _ => true end.

(** The one-character line boundaries of [str.splitlines] in the ASCII
    range: LF, VT, FF, FS, GS, RS. CR is handled with its LF. *)
Definition is_boundary (c : ascii) : bool :=
  let n := nat_of_ascii c in
  (n =? 10) || (n =? 11) || (n =? 12) || (n =? 28) || (n =? 29) || (n =? 30).

Definition snoc (s : string) (c : ascii) : string := s +:+ String c EmptyString.

(** [s.splitlines(keepends=True)], [cur] being the line read so far. *)
Fixpoint splitlines_from (cur s : string) : list string :=
  match s with
  | EmptyString => if truthy cur then [cur] else []
  | String c rest =>
      if Ascii.eqb c CR then
        match rest with
        | String d rest' =>
            if Ascii.eqb d LF then snoc (snoc cur c) d :: splitlines_from EmptyString rest'
            else snoc cur c :: splitlines_from EmptyString rest
        | EmptyString => [snoc cur c]
        end
      else if is_boundary c then snoc cur c :: splitlines_from EmptyString rest
      else splitlines_from (snoc cur c) rest
  end.

Definition splitlines_keepends (s : string) : list string :=
  splitlines_from EmptyString s.

(** [''.join(l)]. *)
Definition concat (l : list string) : string :=
  fold_right String.append EmptyString l.

End Py.

(** ** The [unidiff] objects, as the tool reads them *)

Module Unidiff.

(** [Line.line_type]: ['+'], ['-'], [' '] and the marker line
    ["\ No newline at end of file"]. *)
Inductive LineType := Added | Removed | Context | NoNewline.

Record Line := { line_type : LineType; value : string }.

Definition is_added (l : Line) : bool :=
  match line_type l with Added => true | _ => false end.
Definition is_removed (l : Line) : bool :=
  match line_type l with Removed => true | _ => false end.

(** A [Hunk] is the list of its lines, with the header's numbers. *)
Record Hunk := {
  source_start : Z;
  source_length : Z;
  target_start : Z;
  target_length : Z;
  hunk_lines : list Line
}.

(** A [PatchedFile] is the list of its hunks; [path], [is_added_file] and
    [is_removed_file] are the properties the tool reads from it. *)
Record PatchedFile := {
  path : string;
  is_added_file : bool;
  is_removed_file : bool;
  hunks : list Hunk
}.

(** [Hunk.added], [Hunk.removed]: the number of lines of each kind. *)
Definition hunk_added (h : Hunk) : nat := length (List.filter is_added (hunk_lines h)).
Definition hunk_removed (h : Hunk) : nat := length (List.filter is_removed (hunk_lines h)).

(** [PatchedFile.added], [PatchedFile.removed]: the sums over the hunks. *)
Definition added (pf : PatchedFile) : nat := sum_list (map hunk_added (hunks pf)).
Definition removed (pf : PatchedFile) : nat := sum_list (map hunk_removed (hunks pf)).

End Unidiff.

Import Unidiff.

(** ** Applying hunks to a list of lines *)

Module Hunks.

(** The loop of [_apply_single_hunk] that sorts a hunk's lines into the old
    and the new segment. *)
Definition collect_step (acc : list string * list string) (line : Line)
  : list string * list string :=
  let '(old_lines, new_lines) := acc in
  if is_removed line then (old_lines ++ [value line], new_lines)
  else if is_added line then (old_lines, new_lines ++ [value line])
  else (old_lines ++ [value line], new_lines ++ [value line]).

Definition collect (hunk : Hunk) : list string * list string :=
  fold_left collect_step (hunk_lines hunk) ([], []).

(** [len([l for l in hunk if not l.is_added])]. *)
Definition old_count (hunk : Hunk) : Z :=
  Z.of_nat (length (List.filter (λ l, negb (is_added l)) (hunk_lines hunk))).

(** The lines of the file that the hunk's old lines stand for: the value
    the code binds under the comment "Validate that the old lines match the
    file content". *)
Definition file_lines_to_check (lines : list string) (hunk : Hunk) : list string :=
  let target_line := (target_start hunk - 1)%Z in
  Py.slice lines (Some target_line) (Some (target_line + old_count hunk)%Z).

(** [file_lines_to_check] is bound and never compared with [old_lines]. *)
Definition _apply_single_hunk (lines : list string) (hunk : Hunk) : list string :=
  let target_line := (target_start hunk - 1)%Z in
  let '(old_lines, new_lines) := collect hunk in
  let _ := file_lines_to_check lines hunk in
  let new_content :=
    Py.slice lines None (Some target_line) ++ new_lines
      ++ Py.slice lines (Some (target_line + old_count hunk)%Z) None in
  new_content.

Definition _apply_hunks_to_content (original_lines : list string)
    (patched_file : PatchedFile) : list string :=
  let result_lines := original_lines in
  fold_left _apply_single_hunk (reverse (hunks patched_file)) result_lines.

End Hunks.

Import Hunks.

(** ** The platform: [pathlib] paths and the file system *)

Module Platform.

(** A [pathlib] path on POSIX: whether it starts at the root, and its
    components. (The two-slash root of POSIX is not told apart from the
    one-slash root.) *)
Record Path := { is_absolute : bool; parts : list string }.

#[global] Instance Path_eq_dec : EqDecision Path.
Proof. solve_decision. Defined.

#[global] Instance Path_countable : Countable Path.
Proof.
  refine (inj_countable' (λ p, (is_absolute p, parts p))
                         (λ ap, {| is_absolute := ap.1; parts := ap.2 |}) _).
  by intros [].
Defined.

(** [s.split('/')], [cur] being the component read so far. *)
Fixpoint split_slash (cur s : string) : list string :=
  match s with
  | EmptyString => [cur]
  | String c rest =>
      if Ascii.eqb c "/"%char then cur :: split_slash EmptyString rest
      else split_slash (Py.snoc cur c) rest
  end.

Definition kept_component (c : string) : bool :=
  negb (String.eqb c "") && negb (String.eqb c ".").

(** [Path(s)]: empty and ["."] components are dropped, [".."] is kept. *)
Definition Path_of (s : string) : Path :=
  {| is_absolute := match s with String c _ => Ascii.eqb c "/"%char | _ => false end;
     parts := List.filter kept_component (split_slash EmptyString s) |}.

(** [base / s]. *)
Definition joinpath (base : Path) (s : string) : Path :=
  let p := Path_of s in
  if is_absolute p then p
  else {| is_absolute := is_absolute base; parts := parts base ++ parts p |}.

(** [p.parent], [p.name], [str(p)]. *)
Definition parent (p : Path) : Path :=
  {| is_absolute := is_absolute p; parts := removelast (parts p) |}.

Definition name (p : Path) : string := List.last (parts p) "".

Definition str (p : Path) : string :=
  match is_absolute p, parts p with
  | false, [] => "."
  | false, ps => Py.join "/" ps
  | true, ps => "/" +:+ Py.join "/" ps
  end.

(** The exceptions that reach the tool's handlers. *)
Inductive exn :=
| OSError (errno : nat) (strerror : string) (filename : Path)
| SameFileError (src dst : Path)
| UnidiffParseError (message : string)
| PatchApplicationError (message : string).

(** [str(e)]. *)
Definition str_exn (e : exn) : string :=
  match e with
  | OSError errno strerror filename =>
      "[Errno " +:+ pretty errno +:+ "] " +:+ strerror +:+ ": '" +:+ str filename +:+ "'"
  | SameFileError src dst =>
      "'" +:+ str src +:+ "' and '" +:+ str dst +:+ "' are the same file"
  | UnidiffParseError message => message
  | PatchApplicationError message => message
  end.

Definition FileNotFoundError := OSError 2 "No such file or directory".
Definition PermissionError := OSError 13 "Permission denied".
Definition FileExistsError := OSError 17 "File exists".
Definition NotADirectoryError := OSError 20 "Not a directory".
Definition IsADirectoryError := OSError 21 "Is a directory".

Definition is_FileNotFoundError (e : exn) : bool :=
  match e with OSError 2 _ _ => true | _ => false end.

(** What a call changes on disk, in the order it happens. *)
Inductive Event :=
| EvMkdir (p : Path)
| EvWrite (p : Path) (text : string)
| EvCopy (src dst : Path)
| EvUnlink (p : Path).

(** The world a call runs in: the regular files with their text (as
    [read_text] gives it), the directories, the paths the process may not
    write (a file it may not overwrite, a directory in which it may not create
    or delete entries), the readings the clock will give, and the log of the
    changes made. A file is known by the path it is opened with: [..] and
    links are not followed. *)
Record World := {
  files : gmap Path string;
  dirs : gset Path;
  readonly : gset Path;
  clock : nat → string;
  ticks : nat;
  trace : list Event
}.

Definition set_files (f : gmap Path string) (ev : Event) (w : World) : World :=
  {| files := f; dirs := dirs w; readonly := readonly w;
     clock := clock w; ticks := ticks w; trace := trace w ++ [ev] |}.

Definition set_dirs (d : gset Path) (ev : Event) (w : World) : World :=
  {| files := files w; dirs := d; readonly := readonly w;
     clock := clock w; ticks := ticks w; trace := trace w ++ [ev] |}.

(** Computations that read and change the world and may raise. *)
Definition IO (A : Type) : Type := World → (exn + A) * World.

Definition ret {A} (a : A) : IO A := λ w, (inr a, w).
Definition raise {A} (e : exn) : IO A := λ w, (inl e, w).
Definition bind {A B} (m : IO A) (k : A → IO B) : IO B :=
  λ w, match m w with
       | (inl e, w') => (inl e, w')
       | (inr a, w') => k a w'
       end.
Definition try_except {A} (m : IO A) (handler : exn → IO A) : IO A :=
  λ w, match m w with
       | (inl e, w') => handler e w'
       | (inr a, w') => (inr a, w')
       end.

Notation "'let!' x ':=' m 'in' k" := (bind m (λ x, k))
  (at level 10, x pattern, m at level 100, k at level 200, only parsing).
Notation "'try!' m 'except' e '=>' h" := (try_except m (λ e, h))
  (at level 10, e name, m at level 200, h at level 200, only parsing).

(** [p.exists()], [p.is_dir()]. *)
Definition exists_ (p : Path) (w : World) : bool :=
  bool_decide (p ∈ dom (files w)) || bool_decide (p ∈ dirs w).
Definition is_dir (p : Path) (w : World) : bool := bool_decide (p ∈ dirs w).

Definition path_exists (p : Path) : IO bool := λ w, (inr (exists_ p w), w).

(** The error of a path whose parent is not a directory, if any. *)
Definition parent_error (p : Path) (w : World) : option exn :=
  if is_dir (parent p) w then None
  else if bool_decide (parent p ∈ dom (files w)) then Some (NotADirectoryError p)
  else Some (FileNotFoundError p).

(** [p.read_text(encoding='utf-8')]. *)
Definition read_text (p : Path) : IO string := λ w,
  match files w !! p with
  | Some text => (inr text, w)
  | None => if is_dir p w then (inl (IsADirectoryError p), w)
            else (inl (FileNotFoundError p), w)
  end.

(** Opening [p] for writing and storing [text] in it; [ev] is logged. *)
Definition store (p : Path) (text : string) (ev : Event) : IO unit := λ w,
  match parent_error p w with
  | Some e => (inl e, w)
  | None =>
      if is_dir p w then (inl (IsADirectoryError p), w)
      else if bool_decide (p ∈ readonly w) then (inl (PermissionError p), w)
      else if negb (bool_decide (p ∈ dom (files w)))
              && bool_decide (parent p ∈ readonly w)
      then (inl (PermissionError p), w)
      else (inr tt, set_files (<[p := text]> (files w)) ev w)
  end.

(** [p.write_text(text, encoding='utf-8')]. *)
Definition write_text (p : Path) (text : string) : IO unit :=
  store p text (EvWrite p text).

(** [p.unlink()]. *)
Definition unlink (p : Path) : IO unit := λ w,
  match files w !! p with
  | None => if is_dir p w then (inl (IsADirectoryError p), w)
            else (inl (FileNotFoundError p), w)
  | Some _ =>
      if bool_decide (parent p ∈ readonly w) then (inl (PermissionError p), w)
      else (inr tt, set_files (delete p (files w)) (EvUnlink p) w)
  end.

(** [os.mkdir(p)]. *)
Definition os_mkdir (p : Path) : IO unit := λ w,
  match parent_error p w with
  | Some e => (inl e, w)
  | None =>
      if exists_ p w then (inl (FileExistsError p), w)
      else if bool_decide (parent p ∈ readonly w) then (inl (PermissionError p), w)
      else (inr tt, set_dirs ({[p]} ∪ dirs w) (EvMkdir p) w)
  end.

(** [p.mkdir(exist_ok=exist_ok)]: an existing directory is accepted when
    [exist_ok] is set. *)
Definition mkdir_one (p : Path) (exist_ok : bool) : IO unit :=
  try! os_mkdir p except e =>
    if is_FileNotFoundError e then raise e
    else λ w, if negb exist_ok || negb (is_dir p w) then (inl e, w) else (inr tt, w).

(** [p.mkdir(parents=True, exist_ok=exist_ok)], [p] given by its components
    in reverse: a missing parent is created first, by the same call. *)
Fixpoint mkdir_parents (abs : bool) (rparts : list string) (exist_ok : bool) : IO unit :=
  let p := {| is_absolute := abs; parts := reverse rparts |} in
  try! os_mkdir p except e =>
    if is_FileNotFoundError e then
      match rparts with
      | [] => raise e
      | _ :: rparent =>
          let! _ := mkdir_parents abs rparent true in
          mkdir_one p exist_ok
      end
    else λ w, if negb exist_ok || negb (is_dir p w) then (inl e, w) else (inr tt, w).

Definition mkdir (p : Path) (parents exist_ok : bool) : IO unit :=
  if parents then mkdir_parents (is_absolute p) (reverse (parts p)) exist_ok
  else mkdir_one p exist_ok.

(** [shutil.copy2(src, dst)]: into [dst] when it is a directory. *)
Definition copy2 (src dst : Path) : IO unit :=
  let! dst_is_dir := (λ w, (inr (is_dir dst w), w)) in
  let dst := if dst_is_dir : bool then joinpath dst (name src) else dst in
  let! same := (λ w, (inr (bool_decide (src = dst) && exists_ src w), w)) in
  if same : bool then raise (SameFileError src dst)
  else
    let! text := read_text src in
    store dst text (EvCopy src dst).

(** [datetime.datetime.now().strftime("%Y%m%d_%H%M%S")]: the next reading
    of the clock. *)
Definition now_strftime : IO string := λ w,
  (inr (clock w (ticks w)),
   {| files := files w; dirs := dirs w; readonly := readonly w;
      clock := clock w; ticks := S (ticks w); trace := trace w |}).

End Platform.

Import Platform.

(** ** The tool *)

Module Tool.

Record PatchResult := {
  success : bool;
  file_path : string;
  lines_added : nat;
  lines_removed : nat;
  hunks_applied : nat;
  hunks_failed : nat;
  backup_path : option string;
  error : option string;
  warnings : list string
}.

(** [PatchResult(success=False, file_path=..., error=...)]. *)
Definition failed_result (fp err : string) : PatchResult :=
  {| success := false; file_path := fp; lines_added := 0; lines_removed := 0;
     hunks_applied := 0; hunks_failed := 0; backup_path := None;
     error := Some err; warnings := [] |}.

(** [PatchResult(success=True, ...)] with the counts given. *)
Definition ok_result (fp : string) (la lr ha : nat) (bp : option string) : PatchResult :=
  {| success := true; file_path := fp; lines_added := la; lines_removed := lr;
     hunks_applied := ha; hunks_failed := 0; backup_path := bp;
     error := None; warnings := [] |}.

Record PatchApplicationResult := {
  overall_success : bool;
  patches_applied : nat;
  patches_failed : nat;
  files_modified : list string;
  results : list PatchResult;
  top_error : option string
}.

Definition _resolve_file_path (patch_path : string) (target_dir : Path) : Path :=
  let clean_path := patch_path in
  let clean_path :=
    if String.prefix "a/" clean_path || String.prefix "b/" clean_path
    then String.substring 2 (String.length clean_path - 2) clean_path
    else clean_path in
  if is_absolute (Path_of clean_path) then Path_of clean_path
  else joinpath target_dir clean_path.

Definition _create_backup (file_path : Path) : IO Path :=
  let backup_dir := joinpath (parent file_path) ".qualityforge_backups" in
  let! _ := mkdir backup_dir false true in
  let! timestamp := now_strftime in
  let backup_name := name file_path +:+ "." +:+ timestamp +:+ ".backup" in
  let backup_path := joinpath backup_dir backup_name in
  let! _ := copy2 file_path backup_path in
  ret backup_path.

(** The text [_handle_added_file] writes. *)
Definition added_content (patched_file : PatchedFile) : string :=
  let content_lines :=
    flat_map (λ hunk, map (λ line, Py.rstrip_nl (value line))
                          (List.filter is_added (hunk_lines hunk)))
             (hunks patched_file) in
  let content := Py.join Py.nl content_lines in
  if Py.truthy content && negb (Py.endswith_nl content) then content +:+ Py.nl
  else content.

Definition _handle_added_file (patched_file : PatchedFile) (file_path : Path)
    (dry_run : bool) : IO PatchResult :=
  let! ex := path_exists file_path in
  if ex : bool then
    ret (failed_result (str file_path) "Cannot add file that already exists")
  else if dry_run then
    ret (ok_result (str file_path) (added patched_file) 0
                   (length (hunks patched_file)) None)
  else
    try!
      (let! _ := mkdir (parent file_path) true true in
       let content := added_content patched_file in
       let! _ := write_text file_path content in
       ret (ok_result (str file_path) (added patched_file) 0
                      (length (hunks patched_file)) None))
    except e =>
      ret (failed_result (str file_path)
                         ("Failed to create new file: " +:+ str_exn e)).

Definition _handle_removed_file (patched_file : PatchedFile) (file_path : Path)
    (dry_run : bool) : IO PatchResult :=
  let! ex := path_exists file_path in
  if negb ex then
    ret (failed_result (str file_path) "Cannot remove file that doesn't exist")
  else if dry_run then
    ret (ok_result (str file_path) 0 (removed patched_file)
                   (length (hunks patched_file)) None)
  else
    try!
      (let! backup_path := _create_backup file_path in
       let! _ := unlink file_path in
       ret (ok_result (str file_path) 0 (removed patched_file)
                      (length (hunks patched_file)) (Some (str backup_path))))
    except e =>
      ret (failed_result (str file_path) ("Failed to remove file: " +:+ str_exn e)).

Definition _handle_modified_file (patched_file : PatchedFile) (file_path : Path)
    (dry_run : bool) : IO PatchResult :=
  let! ex := path_exists file_path in
  if negb ex then
    ret (failed_result (str file_path) "Cannot modify file that doesn't exist")
  else
    try!
      (let! original_content := read_text file_path in
       let original_lines := Py.splitlines_keepends original_content in
       let modified_lines := _apply_hunks_to_content original_lines patched_file in
       if dry_run then
         ret (ok_result (str file_path) (added patched_file) (removed patched_file)
                        (length (hunks patched_file)) None)
       else
         let! backup_path := _create_backup file_path in
         let modified_content := Py.concat modified_lines in
         let! _ := write_text file_path modified_content in
         ret (ok_result (str file_path) (added patched_file) (removed patched_file)
                        (length (hunks patched_file)) (Some (str backup_path))))
    except e =>
      ret (failed_result (str file_path) ("Failed to apply patch: " +:+ str_exn e)).

(** The whole body is inside [try ... except Exception], so the call
    always returns a [PatchResult]. *)
Definition _apply_single_file_patch (patched_file : PatchedFile) (target_dir : Path)
    (dry_run : bool) (w : World) : PatchResult * World :=
  let body : IO PatchResult :=
    let file_path := _resolve_file_path (path patched_file) target_dir in
    if is_added_file patched_file then
      _handle_added_file patched_file file_path dry_run
    else if is_removed_file patched_file then
      _handle_removed_file patched_file file_path dry_run
    else
      _handle_modified_file patched_file file_path dry_run in
  match body w with
  | (inr result, w') => (result, w')
  | (inl e, w') => (failed_result (path patched_file) (str_exn e), w')
  end.

End Tool.

Import Tool.

(** ** The orchestrator: [_parse_patch] and [apply_patches] *)

(** What [_parse_patch] accepts: the text of a diff, or a [PatchSet] that
    is already parsed. *)
Inductive PatchContent :=
| PatchText (text : string)
| PatchObject (patchset : list PatchedFile).

(** The local variables of [apply_patches]. *)
Record Locals := {
  l_results : list PatchResult;
  l_files_modified : list string;
  l_patches_applied : nat;
  l_patches_failed : nat
}.

Definition no_locals : Locals :=
  {| l_results := []; l_files_modified := []; l_patches_applied := 0;
     l_patches_failed := 0 |}.

(** The body of the inner loop: one file of a parsed patch. *)
Definition file_step (target_dir : Path) (dry_run : bool)
    (st : Locals * World) (patched_file : PatchedFile) : Locals * World :=
  let '(result, w') := _apply_single_file_patch patched_file target_dir dry_run st.2 in
  let acc := st.1 in
  let results := l_results acc ++ [result] in
  if success result then
    ({| l_results := results;
        l_files_modified :=
          if bool_decide (file_path result ∈ l_files_modified acc)
          then l_files_modified acc
          else l_files_modified acc ++ [file_path result];
        l_patches_applied := l_patches_applied acc + 1;
        l_patches_failed := l_patches_failed acc |}, w')
  else
    ({| l_results := results;
        l_files_modified := l_files_modified acc;
        l_patches_applied := l_patches_applied acc;
        l_patches_failed := l_patches_failed acc + 1 |}, w').

Section Orchestrator.

(** [unidiff.PatchSet(text)]: the parser of the [unidiff] package, which
    raises on text it cannot read. *)
Variable PatchSet : string → exn + list PatchedFile.

Definition _parse_patch (patch_content : PatchContent) : exn + list PatchedFile :=
  let body : exn + list PatchedFile :=
    match
      match patch_content with
      | PatchText text => PatchSet text
      | PatchObject patchset => inr patchset
      end
    with
    | inl e => inl e
    | inr [] => inl (PatchApplicationError "Empty or invalid patch content")
    | inr patchset => inr patchset
    end in
  match body with
  | inl e => inl (PatchApplicationError ("Failed to parse patch: " +:+ str_exn e))
  | inr patchset => inr patchset
  end.

(** The body of the outer loop: the [i]-th patch (counting from 0). *)
Definition patch_step (target_dir : Path) (dry_run : bool) (i : nat)
    (patch_content : PatchContent) (st : Locals * World) : Locals * World :=
  match _parse_patch patch_content with
  | inr patchset => fold_left (file_step target_dir dry_run) patchset st
  | inl e =>
      let error_result := failed_result ("patch_" +:+ pretty (i + 1)) (str_exn e) in
      ({| l_results := l_results st.1 ++ [error_result];
          l_files_modified := l_files_modified st.1;
          l_patches_applied := l_patches_applied st.1;
          l_patches_failed := l_patches_failed st.1 + 1 |}, st.2)
  end.

(** [for i, patch_content in enumerate(patches)], from index [i] on. *)
Fixpoint process_from (target_dir : Path) (dry_run : bool) (i : nat)
    (patches : list PatchContent) (st : Locals * World) : Locals * World :=
  match patches with
  | [] => st
  | patch_content :: rest =>
      process_from target_dir dry_run (S i) rest
                   (patch_step target_dir dry_run i patch_content st)
  end.

Definition report (acc : Locals) : PatchApplicationResult :=
  {| overall_success := l_patches_failed acc =? 0;
     patches_applied := l_patches_applied acc;
     patches_failed := l_patches_failed acc;
     files_modified := l_files_modified acc;
     results := l_results acc;
     top_error := None |}.

Definition apply_patches (patches : list PatchContent) (target_dir : Path)
    (dry_run : bool) (w : World) : PatchApplicationResult * World :=
  let '(acc, w') := process_from target_dir dry_run 0 patches (no_locals, w) in
  (report acc, w').

End Orchestrator.

(** ** The validator: [validate_patch] *)

(** The dictionaries [validate_patch] builds, with their keys. *)
Module Validation.

Record FileInfo := {
  path : string;
  operation : string;
  exists_ : bool;
  can_apply : bool
}.

Record Result := {
  valid : bool;
  files : list FileInfo;
  warnings : list string;
  errors : list string
}.

End Validation.

(** The body of the loop of [validate_patch]: one file of the patch. *)
Definition validate_file (target_dir : Path) (validation_result : Validation.Result)
    (patched_file : PatchedFile) : IO Validation.Result :=
  let file_path := _resolve_file_path (path patched_file) target_dir in
  let! ex := path_exists file_path in
  let file_info :=
    {| Validation.path := str file_path; Validation.operation := "unknown";
       Validation.exists_ := ex; Validation.can_apply := false |} in
  let errors := Validation.errors validation_result in
  let! checked :=
    if is_added_file patched_file then
      let! ex1 := path_exists file_path in
      let! ex2 := path_exists file_path in
      ret ({| Validation.path := Validation.path file_info; Validation.operation := "add";
              Validation.exists_ := Validation.exists_ file_info;
              Validation.can_apply := negb ex1 |},
           if ex2 : bool
           then errors ++ ["Cannot add existing file: " +:+ str file_path]
           else errors)
    else if is_removed_file patched_file then
      let! ex1 := path_exists file_path in
      let! ex2 := path_exists file_path in
      ret ({| Validation.path := Validation.path file_info; Validation.operation := "remove";
              Validation.exists_ := Validation.exists_ file_info;
              Validation.can_apply := ex1 |},
           if negb ex2
           then errors ++ ["Cannot remove non-existent file: " +:+ str file_path]
           else errors)
    else
      let! ex1 := path_exists file_path in
      let! ex2 := path_exists file_path in
      ret ({| Validation.path := Validation.path file_info; Validation.operation := "modify";
              Validation.exists_ := Validation.exists_ file_info;
              Validation.can_apply := ex1 |},
           if negb ex2
           then errors ++ ["Cannot modify non-existent file: " +:+ str file_path]
           else errors) in
  ret {| Validation.valid := Validation.valid validation_result;
         Validation.files := Validation.files validation_result ++ [checked.1];
         Validation.warnings := Validation.warnings validation_result;
         Validation.errors := checked.2 |}.

(** [for patched_file in patchset]. *)
Fixpoint validate_files (target_dir : Path) (validation_result : Validation.Result)
    (patchset : list PatchedFile) : IO Validation.Result :=
  match patchset with
  | [] => ret validation_result
  | patched_file :: rest =>
      let! validation_result := validate_file target_dir validation_result patched_file in
      validate_files target_dir validation_result rest
  end.

Section Validator.

(** [unidiff.PatchSet(text)], as for [apply_patches]. *)
Variable PatchSet : string → exn + list PatchedFile.

Definition validate_patch (patch_content : PatchContent) (target_dir : Path)
    : IO Validation.Result :=
  try!
    (let! patchset := (λ w, (_parse_patch PatchSet patch_content, w)) in
     let validation_result :=
       {| Validation.valid := true; Validation.files := [];
          Validation.warnings := []; Validation.errors := [] |} in
     let! validation_result := validate_files target_dir validation_result patchset in
     ret {| Validation.valid := length (Validation.errors validation_result) =? 0;
            Validation.files := Validation.files validation_result;
            Validation.warnings := Validation.warnings validation_result;
            Validation.errors := Validation.errors validation_result |})
  except e =>
    ret {| Validation.valid := false; Validation.files := [];
           Validation.warnings := [];
           Validation.errors := ["Patch validation failed: " +:+ str_exn e] |}.

End Validator.

(** ** A sample repository *)

Module Sample.

Definition ln (s : string) : string := s +:+ Py.nl.

Definition mk (t : LineType) (s : string) : Line := {| line_type := t; value := ln s |}.

Definition hunk (ss sl ts tl : Z) (ls : list Line) : Hunk :=
  {| source_start := ss; source_length := sl; target_start := ts;
     target_length := tl; hunk_lines := ls |}.

Definition root : Path := {| is_absolute := true; parts := [] |}.
Definition repo : Path := joinpath root "repo".

(** A repository [/repo] holding [a.py] with the three lines a, b, c. *)
Definition w0 : World :=
  {| files := {[ joinpath repo "a.py" := ln "a" +:+ ln "b" +:+ ln "c" ]};
     dirs := {[ root; repo ]};
     readonly := ∅;
     clock := λ _, "20240101_120000";
     ticks := 0;
     trace := [] |}.

End Sample.

(** * The specification's notions

    The words of the specification the theorems are stated with, and the
    inputs of the worked examples. *)

(** ** Slices and segments *)

(** The segment a hunk expects in the file, and the one it puts there: the
    values of its lines that are not added, and of those that are not
    removed. A line that is neither added nor removed is read as context,
    as [_apply_single_hunk] reads it. *)
Definition old_segment (h : Hunk) : list string :=
  map value (List.filter (λ l, negb (is_added l)) (hunk_lines h)).

Definition new_segment (h : Hunk) : list string :=
  map value (List.filter (λ l, negb (is_removed l)) (hunk_lines h)).

(** Replacing the slice [[i, i+n)] of [buf] by [seg]; the slice is clipped to
    the buffer, as a Python slice is. *)
Definition splice (buf : list string) (i n : nat) (seg : list string) : list string :=
  take i buf ++ seg ++ drop (i + n) buf.

(** A hunk applied the way the specification words it: the slice
    [[target_start-1, target_start-1+count(Context+Removed))] is replaced by
    the hunk's Context+Added lines. *)
Definition spec_apply_hunk (buf : list string) (h : Hunk) : list string :=
  splice buf (Z.to_nat (target_start h - 1)) (length (old_segment h)) (new_segment h).

(** ** Order of application (C8) *)

Definition by_target_asc (h h' : Hunk) : Prop := (target_start h ≤ target_start h')%Z.
Definition by_target_desc : relation Hunk := flip by_target_asc.

(** The specification's wording of the hunk applier: [result] is what
    applying the hunks [hs] to [lines] gives when they are taken in descending
    order of [target_start], each one replacing its slice. *)
Definition applied_in_descending_order (lines : list string) (hs : list Hunk)
    (result : list string) : Prop :=
  ∃ order, order ≡ₚ hs ∧ Sorted by_target_desc order
           ∧ result = fold_left spec_apply_hunk order lines.

(** ** What the platform calls change *)

(** [m], run in [w], returns (does not raise) a value and a world that
    satisfy [P]. *)
Definition returns {A} (m : IO A) (w : World) (P : A → World → Prop) : Prop :=
  match m w with
  | (inr a, w') => P a w'
  | (inl _, _) => False
  end.

Definition is_mkdir (ev : Event) : Prop := ∃ d, ev = EvMkdir d.

(** [w'] is [w] after the clock was read any number of times and the
    directories [mk] were made: same files, same permissions. *)
Definition only_mkdirs (w w' : World) (mk : list Event) : Prop :=
  files w' = files w ∧ readonly w' = readonly w ∧ trace w' = trace w ++ mk
  ∧ Forall is_mkdir mk.

(** ** Backups (C3) *)



(** ** Dry runs (C4) *)



(** ** Isolation of failures (C5) *)

(** The files of one parsed patch, each applied in the world its
    predecessors left, whatever their results. *)
Fixpoint run_files (dir : Path) (dry_run : bool) (fs : list PatchedFile) (w : World)
  : list PatchResult * World :=
  match fs with
  | [] => ([], w)
  | pf :: rest =>
      let '(r, w1) := _apply_single_file_patch pf dir dry_run w in
      let '(rs, w2) := run_files dir dry_run rest w1 in
      (r :: rs, w2)
  end.

(** The [i]-th patch on its own: its files' results, or the one failed
    result of a patch that does not parse. *)
Definition run_patch (PatchSet : string → exn + list PatchedFile) (dir : Path)
    (dry_run : bool) (i : nat) (p : PatchContent) (w : World)
  : list PatchResult * World :=
  match _parse_patch PatchSet p with
  | inl e => ([failed_result ("patch_" +:+ pretty (i + 1)) (str_exn e)], w)
  | inr fs => run_files dir dry_run fs w
  end.

(** The patches from index [i] on, each in the world its predecessors left. *)
Fixpoint run_patches (PatchSet : string → exn + list PatchedFile) (dir : Path)
    (dry_run : bool) (i : nat) (ps : list PatchContent) (w : World)
  : list PatchResult * World :=
  match ps with
  | [] => ([], w)
  | p :: rest =>
      let '(rs, w1) := run_patch PatchSet dir dry_run i p w in
      let '(rs', w2) := run_patches PatchSet dir dry_run (S i) rest w1 in
      (rs ++ rs', w2)
  end.

Definition failures (rs : list PatchResult) : nat :=
  length (List.filter (λ r, negb (success r)) rs).

(** ** Adding a file (C7) *)

(** The Added lines of a patched file, across its hunks, in order. *)
Definition added_lines (pf : PatchedFile) : list Line :=
  List.filter is_added (List.concat (map hunk_lines (hunks pf))).

(** The text of a line: its value without the line feeds that end it. *)
Definition line_text (l : Line) : string := Py.rstrip_nl (value l).

(** The content of an added file, in the specification's words: the Added
    lines joined by newlines, with one trailing newline appended when the
    content is not empty and does not already end in one. *)
Definition joined_added_lines (pf : PatchedFile) : string :=
  let body := Py.join Py.nl (map line_text (added_lines pf)) in
  if negb (String.eqb body "") && negb (Py.endswith_nl body) then body +:+ Py.nl
  else body.

(** ** Path resolution (C9) *)

(** One step of the lexical normal form of a path ([os.path.normpath]):
    [".."] cancels the component before it; at the root it is dropped, and at
    the start of a relative path it is kept. *)
Definition norm_step (abs : bool) (stack : list string) (c : string) : list string :=
  if String.eqb c ".." then
    match last stack with
    | None => if abs then [] else [".."]
    | Some top => if String.eqb top ".." then stack ++ [".."] else removelast stack
    end
  else stack ++ [c].

Definition normalize (p : Path) : list string :=
  fold_left (norm_step (is_absolute p)) (parts p) [].

(** [p] names a place in the tree under [root]. *)
Definition inside (root p : Path) : Prop :=
  is_absolute p = is_absolute root ∧ normalize root `prefix_of` normalize p.

#[global] Instance inside_dec root p : Decision (inside root p).
Proof. unfold inside. apply _. Defined.

(** [clean_path]: the diff path without its [a/] or [b/]. *)
Definition clean_path_of (patch_path : string) : string :=
  if String.prefix "a/" patch_path || String.prefix "b/" patch_path
  then String.substring 2 (String.length patch_path - 2) patch_path
  else patch_path.

(** ** The meaning of a unified diff *)

Module Diff.

(** The old and the new side of a hunk in a unified diff: its context and
    removed lines, its context and added lines. *)
Definition is_old (l : Line) : bool :=
  match line_type l with Context | Removed => true | _ => false end.
Definition is_new (l : Line) : bool :=
  match line_type l with Context | Added => true | _ => false end.
Definition old_side (h : Hunk) : list string := map value (List.filter is_old (hunk_lines h)).
Definition new_side (h : Hunk) : list string := map value (List.filter is_new (hunk_lines h)).

(** The 0-based position a range of a hunk header starts at: [start - 1],
    or [start] for an empty range, which is numbered by the line before it. *)
Definition range_pos (start len : Z) : nat :=
  Z.to_nat (if (len =? 0)%Z then start else start - 1).

(** The new file a well-formed diff describes. [rest] holds the lines of the
    old file from position [pos] on, [out] the lines of the new file so far.
    Each hunk must start at or after [pos], carry the lengths of its header,
    find its old side in the old file at its source range, and start in the
    new file where its target range says. *)
Fixpoint patched (pos : nat) (out rest : list string) (hs : list Hunk)
  : option (list string) :=
  match hs with
  | [] => Some (out ++ rest)
  | h :: hs' =>
      let s := range_pos (source_start h) (source_length h) in
      let gap := s - pos in
      if bool_decide (pos ≤ s
                      ∧ source_length h = Z.of_nat (length (old_side h))
                      ∧ target_length h = Z.of_nat (length (new_side h))
                      ∧ take (length (old_side h)) (drop gap rest) = old_side h
                      ∧ range_pos (target_start h) (target_length h) = length out + gap)
      then patched (s + length (old_side h)) (out ++ take gap rest ++ new_side h)
                   (drop (gap + length (old_side h)) rest) hs'
      else None
  end.

(** [hs] is a well-formed diff between the files [A] and [B]. *)
Definition describes (A : list string) (hs : list Hunk) (B : list string) : Prop :=
  patched 0 [] A hs = Some B.

End Diff.

(** ** Inputs of the worked examples *)

Module C8_inputs.
Import Sample.

Definition abc : list string := [ln "a"; ln "b"; ln "c"].

(** Two hunks listed with ascending source starts, whose target starts are
    2 and then 1. *)
Definition h_first : Hunk := hunk 1 1 2 2 [mk Removed "a"; mk Added "P"; mk Added "Q"].
Definition h_second : Hunk := hunk 2 1 1 2 [mk Removed "b"; mk Added "R"; mk Added "S"].
Definition out_of_order : PatchedFile :=
  {| path := "a.py"; is_added_file := false; is_removed_file := false;
     hunks := [h_first; h_second] |}.

(** The same two hunks listed by ascending target start. *)
Definition in_order : PatchedFile :=
  {| path := "a.py"; is_added_file := false; is_removed_file := false;
     hunks := [h_second; h_first] |}.

End C8_inputs.

Module C3_inputs.
Import Sample.

Definition a_py : Path := joinpath repo "a.py".
Definition backup_of_a_py : Path :=
  joinpath (joinpath repo ".qualityforge_backups") "a.py.20240101_120000.backup".

Definition replace_b : PatchedFile :=
  {| path := "a.py"; is_added_file := false; is_removed_file := false;
     hunks := [hunk 2 1 2 1 [mk Removed "b"; mk Added "B"]] |}.

Definition delete_a_py : PatchedFile :=
  {| path := "a.py"; is_added_file := false; is_removed_file := true;
     hunks := [hunk 1 3 0 0 [mk Removed "a"; mk Removed "b"; mk Removed "c"]] |}.

(** The repository of [w0] with [/repo] closed to new entries. *)
Definition w_closed : World :=
  {| files := files w0; dirs := dirs w0; readonly := {[ repo ]};
     clock := clock w0; ticks := ticks w0; trace := trace w0 |}.

End C3_inputs.

Module Sample_diffs.
Import Sample.

Definition text_of (ls : list string) : string := Py.concat (map ln ls).

(** The diff that adds [new.py] holding the line x, and what [unidiff] reads
    in it. *)
Definition add_new_text : string :=
  text_of ["--- /dev/null"; "+++ b/new.py"; "@@ -0,0 +1 @@"; "+x"].
Definition add_new : PatchedFile :=
  {| path := "new.py"; is_added_file := true; is_removed_file := false;
     hunks := [hunk 0 0 1 1 [mk Added "x"]] |}.

(** The diff that changes that line to y. *)
Definition edit_new_text : string :=
  text_of ["--- a/new.py"; "+++ b/new.py"; "@@ -1 +1 @@"; "-x"; "+y"].
Definition edit_new : PatchedFile :=
  {| path := "new.py"; is_added_file := false; is_removed_file := false;
     hunks := [hunk 1 1 1 1 [mk Removed "x"; mk Added "y"]] |}.

(** The diff that changes line 2 of [a.py] from b to B, and the same diff
    with a hunk header that announces three lines. *)
Definition replace_b_text : string :=
  text_of ["--- a/a.py"; "+++ b/a.py"; "@@ -2 +2 @@"; "-b"; "+B"].
Definition short_hunk_text : string :=
  text_of ["--- a/a.py"; "+++ b/a.py"; "@@ -2,3 +2,3 @@"; "-b"; "+B"].

(** [unidiff.PatchSet] on the texts of this development: the files it reads
    in the three diffs, the error it raises on the short hunk, and the empty
    set it returns for a text in which it finds no diff. *)
Definition PatchSet (text : string) : exn + list PatchedFile :=
  if String.eqb text add_new_text then inr [add_new]
  else if String.eqb text edit_new_text then inr [edit_new]
  else if String.eqb text replace_b_text then inr [C3_inputs.replace_b]
  else if String.eqb text short_hunk_text
       then inl (UnidiffParseError "Hunk is shorter than expected")
  else inr [].

End Sample_diffs.

Module C4_inputs.


End C4_inputs.

Module C6_inputs.
Import Sample.

(** A removal of [a.py] made against a file that held other lines. *)
Definition stale_removal : PatchedFile :=
  {| path := "a.py"; is_added_file := false; is_removed_file := true;
     hunks := [hunk 1 2 0 0 [mk Removed "x"; mk Removed "y"]] |}.

Definition missing : Path := joinpath repo "gone.py".

End C6_inputs.

Module C7_inputs.
Import Sample.

(** The diff that adds [new.py] with three lines. *)
Definition three_lines : PatchedFile :=
  {| path := "new.py"; is_added_file := true; is_removed_file := false;
     hunks := [hunk 0 0 1 3 [mk Added "import os"; mk Added ""; mk Added "print(os.name)"]] |}.

Definition new_py : Path := joinpath repo "new.py".

End C7_inputs.

Module C10_inputs.
Import Sample.

(** A hunk for line 10 of a file that has three lines. *)
Definition far_hunk : Hunk :=
  hunk 10 1 10 2 [mk Context "j"; mk Added "k"].
Definition far_patch : PatchedFile :=
  {| path := "a.py"; is_added_file := false; is_removed_file := false;
     hunks := [far_hunk] |}.

End C10_inputs.

Module Scenario_inputs.
Import Sample.

(** A repository whose [a.py] has the five lines a to e, and the diff that
    replaces its lines 2 and 3 by one line: [@@ -2,2 +2,1 @@]. *)
Definition five_lines : World :=
  {| files := {[ joinpath repo "a.py" := Py.concat (map ln ["a"; "b"; "c"; "d"; "e"]) ]};
     dirs := dirs w0; readonly := readonly w0;
     clock := clock w0; ticks := ticks w0; trace := trace w0 |}.
Definition two_for_one : PatchedFile :=
  {| path := "a.py"; is_added_file := false; is_removed_file := false;
     hunks := [hunk 2 2 2 1 [mk Removed "b"; mk Removed "c"; mk Added "X"]] |}.

End Scenario_inputs.

Module C1_inputs.
Import Sample.

(** A hunk made against a file whose second line was X; [a.py] holds b. *)
Definition stale_hunk : Hunk := hunk 2 1 2 1 [mk Removed "X"; mk Added "Y"].
Definition stale_patch : PatchedFile :=
  {| path := "a.py"; is_added_file := false; is_removed_file := false;
     hunks := [stale_hunk] |}.

End C1_inputs.

Module C2_inputs.
Import Sample.

(** The file a..f, and the file with X inserted after a and f changed to F. *)
Definition A : list string := [ln "a"; ln "b"; ln "c"; ln "d"; ln "e"; ln "f"].
Definition B : list string := [ln "a"; ln "X"; ln "b"; ln "c"; ln "d"; ln "e"; ln "F"].

(** Their diff with one line of context:
    [@@ -1,2 +1,3 @@] and [@@ -5,2 +6,2 @@]. *)
Definition insert_X : Hunk := hunk 1 2 1 3 [mk Context "a"; mk Added "X"; mk Context "b"].
Definition change_f : Hunk := hunk 5 2 6 2 [mk Context "e"; mk Removed "f"; mk Added "F"].
Definition A_to_B : PatchedFile :=
  {| path := "a.py"; is_added_file := false; is_removed_file := false;
     hunks := [insert_X; change_f] |}.

End C2_inputs.

(** * Further notions

    What the further properties of the tool are stated with. *)

(** ** Hunks *)

(** Two hunks that differ at most in the text of their context and removed
    lines: same target start, same new segment, as many old lines. *)
Definition same_effect (h h' : Hunk) : Prop :=
  target_start h' = target_start h ∧ new_segment h' = new_segment h
  ∧ length (old_segment h') = length (old_segment h).


Module Hunk_inputs.
Import Sample.

(** A hunk that deletes the first line of a file, as a diff without context
    numbers it: [@@ -1 +0,0 @@]. *)
Definition delete_first : Hunk := hunk 1 1 0 0 [mk Removed "a"].

(** The hunk of [C1_inputs] made against the file as it is. *)
Definition fresh_hunk : Hunk := hunk 2 1 2 1 [mk Removed "b"; mk Added "Y"].


(** The hunk of [C3_inputs.replace_b]. *)
Definition replace_b_hunk : Hunk := hunk 2 1 2 1 [mk Removed "b"; mk Added "B"].

End Hunk_inputs.

(** ** Results *)

(** The counts a successful result of [pf] carries: an Add counts no removed
    line and a Remove no added line. *)
Definition expected_added (pf : PatchedFile) : nat :=
  if is_added_file pf then added pf
  else if is_removed_file pf then 0 else added pf.

Definition expected_removed (pf : PatchedFile) : nat :=
  if is_added_file pf then 0 else removed pf.

(** What every [PatchResult] of [_apply_single_file_patch] satisfies. *)
Definition well_formed_result (pf : PatchedFile) (dry_run : bool) (r : PatchResult) : Prop :=
  hunks_failed r = 0 ∧ warnings r = []
  ∧ if success r
    then error r = None ∧ hunks_applied r = length (hunks pf)
         ∧ lines_added r = expected_added pf ∧ lines_removed r = expected_removed pf
         ∧ (is_Some (backup_path r) ↔ dry_run = false ∧ is_added_file pf = false)
    else is_Some (error r) ∧ lines_added r = 0 ∧ lines_removed r = 0
         ∧ hunks_applied r = 0 ∧ backup_path r = None.

(** The files of [w'] are those of [w] but for the two paths [p] and [dst]. *)
Definition same_files_but (p dst : Path) (w w' : World) : Prop :=
  ∀ q, q ≠ p → q ≠ dst → files w' !! q = files w !! q.

(** ** The aggregate *)

Definition successes (rs : list PatchResult) : nat :=
  length (List.filter success rs).

(** [if f not in files_modified: files_modified.append(f)]. *)
Definition add_unique (fm : list string) (f : string) : list string :=
  if bool_decide (f ∈ fm) then fm else fm ++ [f].

(** ** Paths *)

(** Where a diff path is placed once its prefix is gone: an absolute path
    as it is, a relative one under the target directory. *)
Definition place (clean_path : string) (target_dir : Path) : Path :=
  if is_absolute (Path_of clean_path) then Path_of clean_path
  else joinpath target_dir clean_path.

(** The path [_create_backup] copies [p] to when the clock reads [timestamp]. *)
Definition backup_path_at (p : Path) (timestamp : string) : Path :=
  joinpath (joinpath (parent p) ".qualityforge_backups")
           (name p +:+ "." +:+ timestamp +:+ ".backup").

Module Backup_inputs.
Import Sample.

(** The world after [C3_inputs.replace_b] was applied, with its backup of
    [a.py], and after [a.py] was backed up once more, the clock reading
    the same second. *)
Definition after_first : World :=
  (_apply_single_file_patch C3_inputs.replace_b repo false w0).2.
Definition backed_up_again : World :=
  (_create_backup C3_inputs.a_py after_first).2.

End Backup_inputs.


(** ** Validation and the dry run *)

(** The entry [validate_patch] makes for [pf] when it looks at the world [w]. *)
Definition file_info_of (dir : Path) (w : World) (pf : PatchedFile) : Validation.FileInfo :=
  let p := _resolve_file_path (path pf) dir in
  {| Validation.path := str p;
     Validation.operation :=
       if is_added_file pf then "add"
       else if is_removed_file pf then "remove" else "modify";
     Validation.exists_ := exists_ p w;
     Validation.can_apply :=
       if is_added_file pf then negb (exists_ p w) else exists_ p w |}.

(** The entries of a report that cannot be applied. *)
Definition refused (infos : list Validation.FileInfo) : list Validation.FileInfo :=
  List.filter (λ info, negb (Validation.can_apply info)) infos.

(** [pf] changes a file in place: it neither adds nor removes it. *)
Definition is_modification (pf : PatchedFile) : bool :=
  negb (is_added_file pf) && negb (is_removed_file pf).

Module Validation_inputs.
Import Sample.

(** The repository of [w0] with a directory [/repo/src]. *)
Definition src_dir : Path := joinpath repo "src".
Definition w_src : World :=
  {| files := files w0; dirs := {[ root; repo; src_dir ]}; readonly := ∅;
     clock := clock w0; ticks := ticks w0; trace := trace w0 |}.

(** A diff that names the directory as the file it changes. *)
Definition edit_src : PatchedFile :=
  {| path := "src"; is_added_file := false; is_removed_file := false;
     hunks := [hunk 1 1 1 1 [mk Removed "x"; mk Added "y"]] |}.

End Validation_inputs.


(** ** The text of an added file *)

(** The value of [l] is its text and one line feed. *)
Definition one_line (l : Line) : Prop := value l = line_text l +:+ Py.nl.

(** The last of [ls] is a blank line: its text is empty. *)
Definition ends_blank (ls : list Line) : bool :=
  match last ls with
  | Some l => negb (Py.truthy (line_text l))
  | None => false
  end.

Module Add_inputs.
Import Sample.

(** The diff that adds [new.py] with the line a and a blank line. *)
Definition blank_end : PatchedFile :=
  {| path := "new.py"; is_added_file := true; is_removed_file := false;
     hunks := [hunk 0 0 1 2 [mk Added "a"; mk Added ""]] |}.

End Add_inputs.

(** * Proofs *)

#[global] Arguments mkdir : simpl never.
#[global] Arguments write_text : simpl never.
#[global] Arguments read_text : simpl never.
#[global] Arguments unlink : simpl never.
#[global] Arguments copy2 : simpl never.
#[global] Arguments _create_backup : simpl never.

(** Unfolding a handler down to the platform calls it makes. *)
Ltac run_io :=
  unfold returns, _handle_added_file, _handle_removed_file, _handle_modified_file,
         bind, path_exists, try_except, ret.


(** ** Slices and segments *)

Section SliceFacts.
Context {A : Type}.
Implicit Types l : list A.

Lemma slice_upto l (t : Z) :
  (0 ≤ t)%Z → Py.slice l None (Some t) = take (Z.to_nat t) l.
Proof.
  intros Ht. unfold Py.slice, Py.adjust_index; simpl.
  destruct (Z.ltb_spec t 0); [lia|].
  rewrite Z.sub_0_r, drop_0.
  destruct (Z.le_gt_cases t (Z.of_nat (length l))).
  - by rewrite Z.min_l.
  - rewrite Z.min_r, Nat2Z.id by lia.
    rewrite !take_ge; [done | lia | lia].
Qed.

Lemma slice_from l (t : Z) :
  (0 ≤ t)%Z → Py.slice l (Some t) None = drop (Z.to_nat t) l.
Proof.
  intros Ht. unfold Py.slice, Py.adjust_index; simpl.
  destruct (Z.ltb_spec t 0); [lia|].
  rewrite take_ge by (rewrite length_drop; lia).
  destruct (Z.le_gt_cases t (Z.of_nat (length l))).
  - by rewrite Z.min_l.
  - rewrite Z.min_r, Nat2Z.id by lia.
    rewrite !drop_ge; [done | lia | lia].
Qed.

(** The slice between two bounds that are not negative. *)
Lemma slice_between l (a b : Z) :
  (0 ≤ a)%Z → (a ≤ b)%Z →
  Py.slice l (Some a) (Some b) = take (Z.to_nat (b - a)) (drop (Z.to_nat a) l).
Proof.
  intros Ha Hb. unfold Py.slice, Py.adjust_index; simpl.
  destruct (Z.ltb_spec a 0); [lia|]. destruct (Z.ltb_spec b 0); [lia|].
  destruct (Z.le_gt_cases a (Z.of_nat (length l))).
  - rewrite (Z.min_l a) by done.
    destruct (Z.le_gt_cases b (Z.of_nat (length l))).
    + by rewrite Z.min_l.
    + rewrite Z.min_r by lia.
      rewrite !take_ge; [done | rewrite length_drop; lia | rewrite length_drop; lia].
  - rewrite !Z.min_r by lia. rewrite Nat2Z.id.
    rewrite !drop_ge by lia. by rewrite !take_nil.
Qed.

End SliceFacts.

Lemma collect_from (ls : list Line) (old new : list string) :
  fold_left collect_step ls (old, new) =
    (old ++ map value (List.filter (λ l, negb (is_added l)) ls),
     new ++ map value (List.filter (λ l, negb (is_removed l)) ls)).
Proof.
  revert old new. induction ls as [|[[] v] ls IH]; intros old new; simpl.
  - by rewrite !app_nil_r.
  - rewrite IH. by rewrite <-app_assoc.
  - rewrite IH. by rewrite <-app_assoc.
  - rewrite IH. by rewrite <-!app_assoc.
  - rewrite IH. by rewrite <-!app_assoc.
Qed.

Lemma collect_segments (h : Hunk) : collect h = (old_segment h, new_segment h).
Proof. unfold collect. by rewrite collect_from. Qed.

Lemma old_count_segment (h : Hunk) : old_count h = Z.of_nat (length (old_segment h)).
Proof. unfold old_count, old_segment. by rewrite length_map. Qed.

(** [_apply_single_hunk] written with its two slices. *)
Lemma apply_single_hunk_slices (lines : list string) (h : Hunk) :
  _apply_single_hunk lines h =
    Py.slice lines None (Some (target_start h - 1)%Z) ++ new_segment h
      ++ Py.slice lines (Some (target_start h - 1 + old_count h)%Z) None.
Proof. unfold _apply_single_hunk. by rewrite collect_segments. Qed.

(** From a target start of 1 on, the code's two slices are the splice. *)
Lemma apply_single_hunk_splice (lines : list string) (h : Hunk) :
  (1 ≤ target_start h)%Z → _apply_single_hunk lines h = spec_apply_hunk lines h.
Proof.
  intros Hts. rewrite apply_single_hunk_slices, old_count_segment.
  rewrite slice_upto, slice_from by lia.
  unfold spec_apply_hunk, splice. do 3 f_equal. lia.
Qed.

Lemma apply_hunks_splice (hs : list Hunk) (lines : list string) :
  Forall (λ h, (1 ≤ target_start h)%Z) hs →
  fold_left _apply_single_hunk hs lines = fold_left spec_apply_hunk hs lines.
Proof.
  intros Hall. revert lines.
  induction Hall as [|h hs Hh _ IH]; intros lines; simpl; [done|].
  by rewrite apply_single_hunk_splice, IH.
Qed.

(** ** Order of application (C8) *)

(** C8, as amended: the hunks of a Modify file are applied in the reverse of
    the order in which the file lists them, and a hunk whose target start is
    at least 1 replaces the slice
    [[target_start-1, target_start-1+count(lines not added))] of the buffer,
    clipped to the buffer, with its lines that are not removed, in order.
    When the file lists its hunks by ascending target start, this is an
    application in descending order of target start. *)
Theorem hunks_applied_in_reverse_listing_order (lines : list string) (pf : PatchedFile) :
  Forall (λ h, (1 ≤ target_start h)%Z) (hunks pf) →
  _apply_hunks_to_content lines pf = fold_left spec_apply_hunk (reverse (hunks pf)) lines
  ∧ (Sorted by_target_asc (hunks pf) →
     applied_in_descending_order lines (hunks pf) (_apply_hunks_to_content lines pf)).
Proof.
  intros Hts.
  assert (Hcode : _apply_hunks_to_content lines pf
                  = fold_left spec_apply_hunk (reverse (hunks pf)) lines).
  { unfold _apply_hunks_to_content. apply apply_hunks_splice.
    by apply Forall_reverse. }
  split; [done|].
  intros Hsorted. exists (reverse (hunks pf)). split_and!.
  - apply reverse_Permutation.
  - by apply Sorted_reverse.
  - done.
Qed.

Lemma hunks_applied_in_reverse_listing_order_witness :
  Forall (λ h, (1 ≤ target_start h)%Z) (hunks C8_inputs.in_order)
  ∧ Sorted by_target_asc (hunks C8_inputs.in_order)
  ∧ _apply_hunks_to_content C8_inputs.abc C8_inputs.in_order
    = fold_left spec_apply_hunk (reverse (hunks C8_inputs.in_order)) C8_inputs.abc
  ∧ applied_in_descending_order C8_inputs.abc (hunks C8_inputs.in_order)
      (_apply_hunks_to_content C8_inputs.abc C8_inputs.in_order).
Proof.
  assert (H : Forall (λ h, (1 ≤ target_start h)%Z) (hunks C8_inputs.in_order)).
  { repeat constructor; simpl; lia. }
  assert (HS : Sorted by_target_asc (hunks C8_inputs.in_order)).
  { repeat constructor. unfold by_target_asc; simpl; lia. }
  destruct (hunks_applied_in_reverse_listing_order C8_inputs.abc C8_inputs.in_order H)
    as [Hcode Hdesc].
  split_and!; [exact H | exact HS | exact Hcode | exact (Hdesc HS)].
Defined.

(** C8 as stated fails: on a file that lists the hunk with target start 2
    before the hunk with target start 1, the code applies the second hunk
    first, and what it returns is not the result of any application in
    descending order of target start. *)
Lemma descending_target_order_fails :
  _apply_hunks_to_content C8_inputs.abc C8_inputs.out_of_order
    = [Sample.ln "R"; Sample.ln "P"; Sample.ln "Q"; Sample.ln "b"; Sample.ln "c"]
  ∧ ¬ applied_in_descending_order C8_inputs.abc (hunks C8_inputs.out_of_order)
        (_apply_hunks_to_content C8_inputs.abc C8_inputs.out_of_order).
Proof.
  split; [reflexivity|].
  intros (order & Hperm & Hsorted & Hres).
  symmetry in Hperm. apply Permutation_length_2_inv in Hperm as [-> | ->].
  - vm_compute in Hres. discriminate Hres.
  - apply Sorted_inv in Hsorted as [_ Hhd].
    apply HdRel_inv in Hhd. unfold by_target_desc, by_target_asc, flip in Hhd.
    simpl in Hhd. lia.
Qed.

(** ** What the platform calls change *)

Lemma only_mkdirs_refl w : only_mkdirs w w [].
Proof. unfold only_mkdirs. by rewrite app_nil_r. Qed.

Lemma only_mkdirs_trans w1 w2 w3 mk1 mk2 :
  only_mkdirs w1 w2 mk1 → only_mkdirs w2 w3 mk2 → only_mkdirs w1 w3 (mk1 ++ mk2).
Proof.
  intros (Hf1 & Hr1 & Ht1 & Hm1) (Hf2 & Hr2 & Ht2 & Hm2). unfold only_mkdirs.
  rewrite Hf2, Hf1, Hr2, Hr1, Ht2, Ht1, app_assoc. split_and!; try done.
  by apply Forall_app.
Qed.

Lemma os_mkdir_inv p w r w' :
  os_mkdir p w = (r, w') →
  (∃ e, r = inl e ∧ w' = w) ∨ (r = inr tt ∧ only_mkdirs w w' [EvMkdir p]).
Proof.
  unfold os_mkdir. intros H.
  destruct (parent_error p w); [left; naive_solver|].
  destruct (exists_ p w); [left; naive_solver|].
  destruct (bool_decide _); [left; naive_solver|].
  right. injection H as <- <-. split; [done|].
  unfold only_mkdirs; simpl. split_and!; try done. repeat constructor. by exists p.
Qed.

Lemma mkdir_one_inv p ok w r w' :
  mkdir_one p ok w = (r, w') →
  (∃ e, r = inl e ∧ w' = w) ∨ (r = inr tt ∧ ∃ mk, only_mkdirs w w' mk).
Proof.
  unfold mkdir_one, try_except. intros H.
  destruct (os_mkdir p w) as [[e|[]] w1] eqn:Hos;
    apply os_mkdir_inv in Hos as [(e' & He & ->) | (He & Hmk)]; try discriminate.
  - destruct (is_FileNotFoundError e); [left; unfold raise in H; naive_solver|].
    destruct (negb ok || negb (is_dir p w)); [left; naive_solver|].
    right. injection H as <- <-. split; [done|]. exists []. apply only_mkdirs_refl.
  - right. injection H as <- <-. split; [done|]. by eexists.
Qed.

Lemma mkdir_parents_inv abs rparts ok w r w' :
  mkdir_parents abs rparts ok w = (r, w') → ∃ mk, only_mkdirs w w' mk.
Proof.
  revert ok w r w'. induction rparts as [|c rparent IH]; intros ok w r w' H;
    simpl in H; unfold try_except in H.
  - destruct (os_mkdir _ w) as [[e|[]] w1] eqn:Hos;
      apply os_mkdir_inv in Hos as [(e' & He & ->) | (He & Hmk)]; try discriminate.
    + exists []. destruct (is_FileNotFoundError e); [unfold raise in H|];
        [|destruct (negb ok || negb _)]; injection H as <- <-; apply only_mkdirs_refl.
    + injection H as <- <-. by eexists.
  - destruct (os_mkdir _ w) as [[e|[]] w1] eqn:Hos;
      apply os_mkdir_inv in Hos as [(e' & He & ->) | (He & Hmk)]; try discriminate.
    + destruct (is_FileNotFoundError e).
      * unfold bind in H.
        destruct (mkdir_parents abs rparent true w) as [[e1|[]] w1] eqn:Hrec;
          apply IH in Hrec as [mk1 Hmk1].
        -- injection H as <- <-. by eexists.
        -- apply mkdir_one_inv in H as [(e2 & _ & ->) | (_ & mk2 & Hmk2)].
           ++ by eexists.
           ++ eexists. by eapply only_mkdirs_trans.
      * exists []. destruct (negb ok || negb _); injection H as <- <-;
          apply only_mkdirs_refl.
    + injection H as <- <-. by eexists.
Qed.

Lemma mkdir_inv p parents ok w r w' :
  mkdir p parents ok w = (r, w') → ∃ mk, only_mkdirs w w' mk.
Proof.
  unfold mkdir. destruct parents; [apply mkdir_parents_inv|].
  intros H. apply mkdir_one_inv in H as [(e & _ & ->) | (_ & mk & Hmk)].
  - exists []. apply only_mkdirs_refl.
  - by eexists.
Qed.

Lemma store_inv p text ev w r w' :
  store p text ev w = (r, w') →
  (∃ e, r = inl e ∧ w' = w)
  ∨ (r = inr tt ∧ w' = set_files (<[p := text]> (files w)) ev w).
Proof.
  unfold store. intros H.
  destruct (parent_error p w); [left; naive_solver|].
  destruct (is_dir p w); [left; naive_solver|].
  destruct (bool_decide (p ∈ readonly w)); [left; naive_solver|].
  destruct (_ && _); [left; naive_solver|].
  right. by injection H as <- <-.
Qed.

Lemma read_text_inv p w r w' :
  read_text p w = (r, w') →
  w' = w ∧ ((∃ text, r = inr text ∧ files w !! p = Some text)
            ∨ (∃ e, r = inl e ∧ files w !! p = None)).
Proof.
  unfold read_text. intros H. destruct (files w !! p) as [text|] eqn:Hp.
  - injection H as <- <-. split; [done|]. left. by exists text.
  - destruct (is_dir p w); injection H as <- <-; (split; [done|]); right; by eexists.
Qed.

Lemma unlink_inv p w r w' :
  unlink p w = (r, w') →
  (∃ e, r = inl e ∧ w' = w)
  ∨ (r = inr tt ∧ is_Some (files w !! p)
     ∧ w' = set_files (delete p (files w)) (EvUnlink p) w).
Proof.
  unfold unlink. intros H. destruct (files w !! p) as [text|] eqn:Hp.
  - destruct (bool_decide _); [left; naive_solver|].
    right. injection H as <- <-. by split_and!.
  - left. destruct (is_dir p w); naive_solver.
Qed.

Lemma exists_of_file p w text : files w !! p = Some text → exists_ p w = true.
Proof.
  intros Hp. unfold exists_. apply orb_true_iff. left.
  apply bool_decide_eq_true, elem_of_dom. by exists text.
Qed.

Lemma copy2_inv src dst w r w' :
  copy2 src dst w = (r, w') →
  (∃ e, r = inl e ∧ w' = w)
  ∨ (r = inr tt ∧ ∃ text dst', files w !! src = Some text ∧ dst' ≠ src
     ∧ w' = set_files (<[dst' := text]> (files w)) (EvCopy src dst') w).
Proof.
  unfold copy2, bind, raise. intros H.
  set (dst' := if is_dir dst w then joinpath dst (name src) else dst) in *.
  destruct (bool_decide (src = dst') && exists_ src w) eqn:Hsame.
  { left. injection H as <- <-. by eexists. }
  destruct (read_text src w) as [[e|text] w1] eqn:Hread;
    apply read_text_inv in Hread as [-> Hread].
  - left. injection H as <- <-. by eexists.
  - destruct Hread as [(text' & [= <-] & Hsrc) | (e & [=] & _)].
    apply store_inv in H as [(e & -> & ->) | (-> & ->)]; [left; naive_solver|].
    right. split; [done|]. exists text, dst'. split_and!; try done.
    intros ->. rewrite (exists_of_file _ _ _ Hsrc), andb_true_r in Hsame.
    by apply bool_decide_eq_false in Hsame.
Qed.

Lemma create_backup_inv p w r w' :
  _create_backup p w = (r, w') →
  ∃ mk, Forall is_mkdir mk
    ∧ ((∃ e, r = inl e ∧ files w' = files w ∧ trace w' = trace w ++ mk)
       ∨ (∃ bp text dst, r = inr bp ∧ files w !! p = Some text ∧ dst ≠ p
          ∧ files w' = <[dst := text]> (files w)
          ∧ trace w' = trace w ++ mk ++ [EvCopy p dst])).
Proof.
  unfold _create_backup, bind, ret, now_strftime. intros H.
  destruct (mkdir _ false true w) as [[e|[]] w1] eqn:Hmk;
    apply mkdir_inv in Hmk as (mk & Hf & _ & Ht & Hmk); exists mk; (split; [done|]).
  - injection H as <- <-. left. by exists e.
  - match type of H with context [copy2 ?s ?d ?w2] =>
      destruct (copy2 s d w2) as [[e|[]] w3] eqn:Hcp end;
      apply copy2_inv in Hcp as [(e' & He & ->) | (He & text & dst & Hp & Hne & ->)];
      try discriminate; injection H as <- <-; simpl in *.
    + left. by exists e.
    + right. eexists _, text, dst. rewrite Hf in *. rewrite Ht, <-app_assoc. by split_and!.
Qed.

(** ** Backups (C3) *)





Module C3_runs.
Import Sample C3_inputs.

(** A Modify logs the backup directory, the copy, then the write; the copy
    holds the old text. *)
Example modify_logs_copy_then_write :
  let out := _handle_modified_file replace_b a_py false w0 in
  trace out.2 = [EvMkdir (joinpath repo ".qualityforge_backups");
                 EvCopy a_py backup_of_a_py;
                 EvWrite a_py (ln "a" +:+ ln "B" +:+ ln "c")]
  ∧ files out.2 !! backup_of_a_py = Some (ln "a" +:+ ln "b" +:+ ln "c")
  ∧ files out.2 !! a_py = Some (ln "a" +:+ ln "B" +:+ ln "c").
Proof. vm_compute. done. Qed.

(** A Remove logs the copy, then the deletion. *)
Example remove_logs_copy_then_unlink :
  let out := _handle_removed_file delete_a_py a_py false w0 in
  trace out.2 = [EvMkdir (joinpath repo ".qualityforge_backups");
                 EvCopy a_py backup_of_a_py; EvUnlink a_py]
  ∧ files out.2 !! backup_of_a_py = Some (ln "a" +:+ ln "b" +:+ ln "c")
  ∧ files out.2 !! a_py = None.
Proof. vm_compute. done. Qed.

(** With the backup directory refused, the Modify fails and writes nothing. *)
Example refused_backup_aborts_modify :
  let out := _handle_modified_file replace_b a_py false w_closed in
  out.1 = inr (failed_result "/repo/a.py"
                 "Failed to apply patch: [Errno 13] Permission denied: '/repo/.qualityforge_backups'")
  ∧ trace out.2 = []
  ∧ files out.2 !! a_py = Some (ln "a" +:+ ln "b" +:+ ln "c").
Proof. vm_compute. done. Qed.

End C3_runs.

(** ** Dry runs (C4) *)

Lemma handle_added_dry pf p w :
  returns (_handle_added_file pf p true) w (λ _ w', w' = w).
Proof. run_io. by destruct (exists_ p w). Qed.

Lemma handle_removed_dry pf p w :
  returns (_handle_removed_file pf p true) w (λ _ w', w' = w).
Proof. run_io. by destruct (exists_ p w). Qed.

Lemma handle_modified_dry pf p w :
  returns (_handle_modified_file pf p true) w (λ _ w', w' = w).
Proof.
  run_io. destruct (exists_ p w); simpl; [|done].
  destruct (read_text p w) as [[e|text] w1] eqn:Hread;
    by apply read_text_inv in Hread as [-> _].
Qed.

Lemma apply_single_file_dry pf dir w :
  (_apply_single_file_patch pf dir true w).2 = w.
Proof.
  unfold _apply_single_file_patch.
  set (p := _resolve_file_path (path pf) dir).
  destruct (is_added_file pf); [|destruct (is_removed_file pf)].
  - pose proof (handle_added_dry pf p w) as H. unfold returns in H.
    by destruct (_handle_added_file pf p true w) as [[e|r] w'].
  - pose proof (handle_removed_dry pf p w) as H. unfold returns in H.
    by destruct (_handle_removed_file pf p true w) as [[e|r] w'].
  - pose proof (handle_modified_dry pf p w) as H. unfold returns in H.
    by destruct (_handle_modified_file pf p true w) as [[e|r] w'].
Qed.












(** ** Isolation of failures (C5) *)

Section Isolation.
Variable PatchSet : string → exn + list PatchedFile.
Variables (dir : Path) (dry_run : bool).

Lemma failures_app rs rs' : failures (rs ++ rs') = failures rs + failures rs'.
Proof. unfold failures. by rewrite List.filter_app, length_app. Qed.

Lemma run_files_length fs w : length (run_files dir dry_run fs w).1 = length fs.
Proof.
  revert w. induction fs as [|pf fs IH]; intros w; simpl; [done|].
  destruct (_apply_single_file_patch pf dir dry_run w) as [r w1].
  specialize (IH w1). destruct (run_files dir dry_run fs w1) as [rs w2].
  simpl in *. by rewrite IH.
Qed.

Lemma file_step_run st pf :
  let out := _apply_single_file_patch pf dir dry_run st.2 in
  l_results (file_step dir dry_run st pf).1 = l_results st.1 ++ [out.1]
  ∧ (file_step dir dry_run st pf).2 = out.2
  ∧ l_patches_failed (file_step dir dry_run st pf).1
    = l_patches_failed st.1 + failures [out.1].
Proof.
  unfold file_step, failures.
  destruct (_apply_single_file_patch pf dir dry_run st.2) as [r w1]; simpl.
  destruct (success r); simpl; split_and!; try done; lia.
Qed.

Lemma files_loop fs acc w :
  let out := fold_left (file_step dir dry_run) fs (acc, w) in
  l_results out.1 = l_results acc ++ (run_files dir dry_run fs w).1
  ∧ out.2 = (run_files dir dry_run fs w).2
  ∧ l_patches_failed out.1
    = l_patches_failed acc + failures (run_files dir dry_run fs w).1.
Proof.
  revert acc w. induction fs as [|pf fs IH]; intros acc w; simpl.
  { rewrite app_nil_r. unfold failures; simpl. split_and!; [done|done|lia]. }
  pose proof (file_step_run (acc, w) pf) as HS. simpl in HS.
  destruct (file_step dir dry_run (acc, w) pf) as [acc1 w1'].
  destruct (_apply_single_file_patch pf dir dry_run w) as [r w1].
  destruct HS as (S1 & S2 & S3). simpl in S1, S2, S3. subst w1'.
  destruct (IH acc1 w1) as (IH1 & IH2 & IH3).
  destruct (run_files dir dry_run fs w1) as [rs w2]. simpl in *.
  split_and!.
  - by rewrite IH1, S1, <-app_assoc.
  - done.
  - rewrite IH3, S3. change (r :: rs) with ([r] ++ rs). rewrite failures_app. lia.
Qed.

Lemma patches_loop ps i acc w :
  let out := process_from PatchSet dir dry_run i ps (acc, w) in
  l_results out.1 = l_results acc ++ (run_patches PatchSet dir dry_run i ps w).1
  ∧ out.2 = (run_patches PatchSet dir dry_run i ps w).2
  ∧ l_patches_failed out.1 = l_patches_failed acc + failures (run_patches PatchSet dir dry_run i ps w).1.
Proof.
  revert i acc w. induction ps as [|p ps IH]; intros i acc w; simpl.
  { rewrite app_nil_r. unfold failures; simpl. split_and!; [done|done|lia]. }
  unfold patch_step, run_patch.
  destruct (_parse_patch PatchSet p) as [e|fs]; simpl.
  - match goal with |- context [process_from _ _ _ _ ps (?a, w)] =>
      destruct (IH (S i) a w) as (IH1 & IH2 & IH3) end.
    destruct (run_patches PatchSet dir dry_run (S i) ps w) as [rs w2]; simpl in *.
    split_and!;
      [ by rewrite IH1, <-app_assoc
      | exact IH2
      | rewrite IH3; unfold failures; simpl; lia ].
  - destruct (files_loop fs acc w) as (F1 & F2 & F3).
    destruct (fold_left (file_step dir dry_run) fs (acc, w)) as [acc1 w1].
    destruct (IH (S i) acc1 w1) as (IH1 & IH2 & IH3).
    destruct (run_files dir dry_run fs w) as [rs1 w1']. simpl in *. subst w1'.
    destruct (run_patches PatchSet dir dry_run (S i) ps w1) as [rs w2]; simpl in *.
    split_and!;
      [ by rewrite IH1, F1, <-app_assoc
      | exact IH2
      | rewrite IH3, F3, failures_app; lia ].
Qed.


End Isolation.


Module C5_runs.
Import Sample Sample_diffs.

(** A diff that does not parse, then a good one: the second is applied. *)
Example bad_diff_then_good_diff :
  let out := apply_patches PatchSet
               [PatchText short_hunk_text; PatchText replace_b_text] repo false w0 in
  map file_path (results out.1) = ["patch_1"; "/repo/a.py"]
  ∧ map success (results out.1) = [false; true]
  ∧ map error (results out.1)
    = [Some "Failed to parse patch: Hunk is shorter than expected"; None]
  ∧ patches_applied out.1 = 1 ∧ patches_failed out.1 = 1
  ∧ overall_success out.1 = false
  ∧ files_modified out.1 = ["/repo/a.py"]
  ∧ files out.2 !! C3_inputs.a_py = Some (ln "a" +:+ ln "B" +:+ ln "c").
Proof. vm_compute. done. Qed.

(** The good one first, then a text that holds no diff: the failed results
    are keyed by the second and third index. *)
Example good_diff_then_bad_diffs :
  let out := apply_patches PatchSet
               [PatchText replace_b_text; PatchText short_hunk_text;
                PatchText "LGTM"] repo false w0 in
  map file_path (results out.1) = ["/repo/a.py"; "patch_2"; "patch_3"]
  ∧ map error (results out.1)
    = [None; Some "Failed to parse patch: Hunk is shorter than expected";
       Some "Failed to parse patch: Empty or invalid patch content"]
  ∧ patches_applied out.1 = 1 ∧ patches_failed out.1 = 2.
Proof. vm_compute. done. Qed.

End C5_runs.

(** ** Removing a file (C6) *)

Lemma handle_removed_missing pf p dry_run w :
  exists_ p w = false →
  returns (_handle_removed_file pf p dry_run) w (λ r w', success r = false ∧ w' = w).
Proof. intros Hex. run_io. by rewrite Hex. Qed.

Lemma handle_removed_ignores_lines pf pf' p dry_run w :
  returns (_handle_removed_file pf p dry_run) w (λ r w',
    returns (_handle_removed_file pf' p dry_run) w (λ r' w'',
      success r' = success r ∧ w'' = w')).
Proof.
  run_io. destruct (exists_ p w); simpl; [|done].
  destruct dry_run; [done|].
  destruct (_create_backup p w) as [[e|bp] w1]; simpl; [done|].
  by destruct (unlink p w1) as [[e|[]] w2].
Qed.

Lemma handle_removed_deletes pf p w :
  returns (_handle_removed_file pf p false) w (λ r w',
    success r = true → files w' !! p = None).
Proof.
  run_io. destruct (exists_ p w); simpl; [|done].
  destruct (_create_backup p w) as [[e|bp] w1]; simpl; [done|].
  destruct (unlink p w1) as [[e|[]] w2] eqn:Hun; simpl; [done|].
  intros _. apply unlink_inv in Hun as [(e & [=] & _) | (_ & _ & ->)].
  simpl. apply lookup_delete_eq.
Qed.

(** C6, as amended: a Remove fails, touching nothing, when the target does
    not exist. When it exists, the file's content is not compared with the
    hunk's lines: whether the operation succeeds and the world it leaves are
    the same whatever the lines of the patch, and a non-dry-run Remove that
    succeeds has deleted the file. *)
Theorem remove_checks_existence_only
    (pf pf' : PatchedFile) (p : Path) (dry_run : bool) (w : World) :
  (exists_ p w = false →
   returns (_handle_removed_file pf p dry_run) w (λ r w', success r = false ∧ w' = w))
  ∧ returns (_handle_removed_file pf p dry_run) w (λ r w',
      returns (_handle_removed_file pf' p dry_run) w (λ r' w'',
        success r' = success r ∧ w'' = w'))
  ∧ returns (_handle_removed_file pf p false) w (λ r w',
      success r = true → files w' !! p = None).
Proof.
  split_and!.
  - apply handle_removed_missing.
  - apply handle_removed_ignores_lines.
  - apply handle_removed_deletes.
Qed.

Lemma remove_checks_existence_only_witness :
  exists_ C6_inputs.missing Sample.w0 = false
  ∧ returns (_handle_removed_file C6_inputs.stale_removal C6_inputs.missing false)
      Sample.w0 (λ r w', success r = false ∧ w' = Sample.w0).
Proof.
  split; [reflexivity|].
  exact (proj1 (remove_checks_existence_only C6_inputs.stale_removal
                  C6_inputs.stale_removal C6_inputs.missing false Sample.w0)
               eq_refl).
Defined.

(** C6 as stated fails: [a.py] holds the lines a, b, c, the patch removes
    the lines x, y, and the non-dry-run Remove succeeds and deletes the
    file. *)
Lemma remove_deletes_a_file_that_differs :
  let out := _apply_single_file_patch C6_inputs.stale_removal Sample.repo false
                                      Sample.w0 in
  (Py.splitlines_keepends <$> files Sample.w0 !! C3_inputs.a_py)
    = Some [Sample.ln "a"; Sample.ln "b"; Sample.ln "c"]
  ∧ flat_map old_segment (hunks C6_inputs.stale_removal)
    = [Sample.ln "x"; Sample.ln "y"]
  ∧ success out.1 = true
  ∧ lines_removed out.1 = 2
  ∧ files out.2 !! C3_inputs.a_py = None.
Proof. vm_compute. done. Qed.

(** ** Adding a file (C7) *)

Lemma added_is_count (pf : PatchedFile) : added pf = length (added_lines pf).
Proof.
  unfold added, added_lines. induction (hunks pf) as [|h hs IH]; simpl; [done|].
  by rewrite List.filter_app, length_app, IH.
Qed.

Lemma added_content_joined (pf : PatchedFile) : added_content pf = joined_added_lines pf.
Proof.
  unfold added_content, joined_added_lines, added_lines.
  assert (Hlines :
    flat_map (λ hunk, map (λ line, Py.rstrip_nl (value line))
                          (List.filter is_added (hunk_lines hunk))) (hunks pf)
    = map line_text (List.filter is_added (List.concat (map hunk_lines (hunks pf))))).
  { induction (hunks pf) as [|h hs IH]; simpl; [done|].
    by rewrite List.filter_app, map_app, IH. }
  rewrite Hlines. by destruct (Py.join _ _).
Qed.

Lemma mkdir_parents_unfold abs rparts exist_ok :
  mkdir_parents abs rparts exist_ok
  = let p := {| is_absolute := abs; parts := reverse rparts |} in
    try_except (os_mkdir p) (λ e,
      if is_FileNotFoundError e then
        match rparts with
        | [] => raise e
        | _ :: rparent => bind (mkdir_parents abs rparent true) (λ _, mkdir_one p exist_ok)
        end
      else λ w, if negb exist_ok || negb (is_dir p w) then (inl e, w) else (inr tt, w)).
Proof. by destruct rparts. Qed.

(** Asking for a directory that is there, in a directory that is there,
    changes nothing. *)
Lemma mkdir_existing d w :
  is_dir d w = true → is_dir (parent d) w = true → mkdir d true true w = (inr tt, w).
Proof.
  intros Hd Hpd. unfold mkdir. rewrite mkdir_parents_unfold. simpl.
  rewrite reverse_involutive.
  replace {| is_absolute := is_absolute d; parts := parts d |} with d by by destruct d.
  unfold try_except, os_mkdir, parent_error, exists_. rewrite Hpd.
  unfold is_dir in Hd. rewrite Hd, orb_true_r. simpl.
  unfold is_dir. by rewrite Hd.
Qed.

Lemma handle_added_existing pf p dry_run w :
  exists_ p w = true →
  returns (_handle_added_file pf p dry_run) w (λ r w', success r = false ∧ w' = w).
Proof. intros Hex. run_io. by rewrite Hex. Qed.

Lemma handle_added_content pf p w :
  exists_ p w = false →
  returns (_handle_added_file pf p false) w (λ r w',
    success r = true →
    files w' !! p = Some (joined_added_lines pf)
    ∧ lines_added r = length (added_lines pf)).
Proof.
  intros Hex. run_io. rewrite Hex; simpl.
  destruct (mkdir (parent p) true true w) as [[e|[]] w1]; simpl; [done|].
  destruct (write_text p (added_content pf) w1) as [[e|[]] w2] eqn:Hwr; simpl; [done|].
  intros _. apply store_inv in Hwr as [(e & [=] & _) | (_ & ->)]. simpl.
  by rewrite lookup_insert_eq, added_content_joined, added_is_count.
Qed.

Lemma handle_added_succeeds pf p w :
  exists_ p w = false →
  is_dir (parent p) w = true → is_dir (parent (parent p)) w = true →
  p ∉ readonly w → parent p ∉ readonly w →
  returns (_handle_added_file pf p false) w (λ r _, success r = true).
Proof.
  intros Hex Hpd Hppd Hro Hpro. run_io. rewrite Hex; simpl.
  rewrite (mkdir_existing _ _ Hpd Hppd); simpl.
  unfold write_text, store, parent_error. rewrite Hpd.
  apply orb_false_iff in Hex as [_ Hnd]. unfold is_dir at 1. rewrite Hnd.
  rewrite (bool_decide_eq_false_2 _ Hro), (bool_decide_eq_false_2 _ Hpro).
  by rewrite andb_false_r.
Qed.

(** C7: an Add fails when the target exists. Otherwise a non-dry-run Add
    that succeeds has created the file with the Added lines joined by
    newlines, and one trailing newline when that content is not empty and
    does not already end in one, and it reports the number of Added lines as
    [lines_added]; it succeeds whenever the file's directory is there and
    the process may write in it. *)
Theorem add_creates_the_file_from_added_lines
    (pf : PatchedFile) (p : Path) (w : World) :
  (exists_ p w = true →
   ∀ dry_run, returns (_handle_added_file pf p dry_run) w
                      (λ r w', success r = false ∧ w' = w))
  ∧ (exists_ p w = false →
     returns (_handle_added_file pf p false) w (λ r w',
       success r = true →
       files w' !! p = Some (joined_added_lines pf)
       ∧ lines_added r = length (added_lines pf)))
  ∧ (exists_ p w = false →
     is_dir (parent p) w = true → is_dir (parent (parent p)) w = true →
     p ∉ readonly w → parent p ∉ readonly w →
     returns (_handle_added_file pf p false) w (λ r _, success r = true)).
Proof.
  split_and!.
  - intros Hex dry_run. by apply handle_added_existing.
  - apply handle_added_content.
  - apply handle_added_succeeds.
Qed.

Lemma add_creates_the_file_from_added_lines_witness :
  (exists_ C3_inputs.a_py Sample.w0 = true
   ∧ returns (_handle_added_file C7_inputs.three_lines C3_inputs.a_py false) Sample.w0
       (λ r w', success r = false ∧ w' = Sample.w0))
  ∧ (exists_ C7_inputs.new_py Sample.w0 = false
     ∧ returns (_handle_added_file C7_inputs.three_lines C7_inputs.new_py false)
         Sample.w0 (λ r w',
           success r = true
           ∧ files w' !! C7_inputs.new_py
             = Some (Sample.ln "import os" +:+ Sample.ln "" +:+ Sample.ln "print(os.name)")
           ∧ lines_added r = 3)).
Proof.
  destruct (add_creates_the_file_from_added_lines C7_inputs.three_lines
              C3_inputs.a_py Sample.w0) as (Hexists & _ & _).
  destruct (add_creates_the_file_from_added_lines C7_inputs.three_lines
              C7_inputs.new_py Sample.w0) as (_ & Hcontent & Hsucceeds).
  split.
  - split; [reflexivity|]. exact (Hexists eq_refl false).
  - split; [reflexivity|].
    specialize (Hcontent eq_refl).
    specialize (Hsucceeds eq_refl eq_refl eq_refl
                  (not_elem_of_empty _) (not_elem_of_empty _)).
    unfold returns in *.
    destruct (_handle_added_file C7_inputs.three_lines C7_inputs.new_py false Sample.w0)
      as [[e|r] w']; [exact Hsucceeds|].
    split; [exact Hsucceeds|]. exact (Hcontent Hsucceeds).
Defined.

(** The added file of the specification's second scenario. *)
Example three_added_lines :
  let out := _apply_single_file_patch C7_inputs.three_lines Sample.repo false
                                      Sample.w0 in
  success out.1 = true ∧ lines_added out.1 = 3 ∧ backup_path out.1 = None
  ∧ files out.2 !! C7_inputs.new_py
    = Some (Sample.ln "import os" +:+ Sample.ln "" +:+ Sample.ln "print(os.name)").
Proof. vm_compute. done. Qed.

(** ** Path resolution (C9) *)

Lemma norm_steps_plain abs (cs stack : list string) :
  ".." ∉ cs → fold_left (norm_step abs) cs stack = stack ++ cs.
Proof.
  revert stack. induction cs as [|c cs IH]; intros stack Hcs; simpl.
  - by rewrite app_nil_r.
  - apply not_elem_of_cons in Hcs as [Hc Hcs].
    unfold norm_step at 2. destruct (String.eqb_spec c ".."); [congruence|].
    rewrite IH by done. by rewrite <-app_assoc.
Qed.

Lemma resolve_relative patch_path target_dir :
  is_absolute (Path_of (clean_path_of patch_path)) = false →
  _resolve_file_path patch_path target_dir
  = {| is_absolute := is_absolute target_dir;
       parts := parts target_dir ++ parts (Path_of (clean_path_of patch_path)) |}.
Proof.
  intros Hrel. unfold _resolve_file_path. fold (clean_path_of patch_path).
  rewrite Hrel. unfold joinpath. by rewrite Hrel.
Qed.

(** C9, as amended: resolution never fails and makes no traversal check. A
    relative diff path, once its [a/] or [b/] is stripped, is joined under
    the target root as it is written; the result lies inside the target root
    when the path has no [..] component. *)
Theorem relative_path_is_joined_unchecked (patch_path : string) (target_dir : Path) :
  is_absolute (Path_of (clean_path_of patch_path)) = false →
  _resolve_file_path patch_path target_dir
  = {| is_absolute := is_absolute target_dir;
       parts := parts target_dir ++ parts (Path_of (clean_path_of patch_path)) |}
  ∧ (".." ∉ parts (Path_of (clean_path_of patch_path)) →
     inside target_dir (_resolve_file_path patch_path target_dir)).
Proof.
  intros Hrel. rewrite (resolve_relative _ _ Hrel). split; [done|].
  intros Hplain. split; [done|]. unfold normalize; simpl.
  rewrite fold_left_app.
  rewrite (norm_steps_plain _ (parts (Path_of (clean_path_of patch_path)))) by exact Hplain.
  by apply prefix_app_r.
Qed.

Lemma relative_path_is_joined_unchecked_witness :
  is_absolute (Path_of (clean_path_of "b/pkg/mod.py")) = false
  ∧ (".." ∉ parts (Path_of (clean_path_of "b/pkg/mod.py")))
  ∧ _resolve_file_path "b/pkg/mod.py" Sample.repo
    = {| is_absolute := true; parts := ["repo"; "pkg"; "mod.py"] |}
  ∧ inside Sample.repo (_resolve_file_path "b/pkg/mod.py" Sample.repo).
Proof.
  assert (Hplain : ".." ∉ parts (Path_of (clean_path_of "b/pkg/mod.py"))).
  { apply (bool_decide_unpack _). by vm_compute. }
  destruct (relative_path_is_joined_unchecked "b/pkg/mod.py" Sample.repo eq_refl)
    as [Hpath Hinside].
  split_and!; [reflexivity | exact Hplain | exact Hpath | exact (Hinside Hplain)].
Defined.

(** C9 as stated fails: the relative diff path [../outside.py] resolves,
    without an error, to [/repo/../outside.py], which is [/outside.py] and
    not a place under [/repo]. *)
Lemma traversal_out_of_the_root_is_returned :
  is_absolute (Path_of (clean_path_of "../outside.py")) = false
  ∧ _resolve_file_path "../outside.py" Sample.repo
    = {| is_absolute := true; parts := ["repo"; ".."; "outside.py"] |}
  ∧ normalize (_resolve_file_path "../outside.py" Sample.repo) = ["outside.py"]
  ∧ ¬ inside Sample.repo (_resolve_file_path "../outside.py" Sample.repo).
Proof.
  split_and!; [reflexivity|reflexivity|reflexivity|].
  intros [_ Hpre]. vm_compute in Hpre. destruct Hpre as [k Hk]. discriminate Hk.
Qed.

(** ** Lines and text *)

Lemma append_cons c s t : String c s +:+ t = String c (s +:+ t).
Proof. done. Qed.

Lemma append_empty_r s : s +:+ "" = s.
Proof. induction s as [|c s IH]; [done|]. by rewrite append_cons, IH. Qed.

Lemma append_assoc s t u : (s +:+ t) +:+ u = s +:+ t +:+ u.
Proof. induction s as [|c s IH]; [done|]. by rewrite !append_cons, IH. Qed.

Lemma snoc_append cur c rest : Py.snoc cur c +:+ rest = cur +:+ String c rest.
Proof. unfold Py.snoc. by rewrite append_assoc. Qed.

Lemma concat_cons x l : Py.concat (x :: l) = x +:+ Py.concat l.
Proof. done. Qed.

Lemma concat_app l k : Py.concat (l ++ k) = Py.concat l +:+ Py.concat k.
Proof.
  induction l as [|x l IH]; [done|].
  by rewrite <-app_comm_cons, !concat_cons, IH, append_assoc.
Qed.

Lemma concat_splitlines_from n cur s :
  String.length s ≤ n → Py.concat (Py.splitlines_from cur s) = cur +:+ s.
Proof.
  revert cur s. induction n as [|n IH]; intros cur [|c rest] Hlen; simpl in Hlen;
    try lia.
  - by destruct cur.
  - by destruct cur.
  - simpl. destruct (Ascii.eqb c Py.CR).
    + destruct rest as [|d rest'].
      * by rewrite concat_cons, snoc_append.
      * simpl in Hlen. destruct (Ascii.eqb d Py.LF).
        -- rewrite concat_cons, IH by lia. by rewrite !snoc_append.
        -- rewrite concat_cons, IH by (simpl; lia). by rewrite snoc_append.
    + destruct (Py.is_boundary c).
      * rewrite concat_cons, IH by lia. by rewrite snoc_append.
      * rewrite IH by lia. by rewrite snoc_append.
Qed.

(** Joining the lines of a text gives the text back. *)
Lemma concat_splitlines s : Py.concat (Py.splitlines_keepends s) = s.
Proof. unfold Py.splitlines_keepends. by rewrite (concat_splitlines_from (String.length s)). Qed.

(** ** A hunk past the end of the buffer (C10) *)

Lemma apply_single_hunk_past_end (lines : list string) (h : Hunk) :
  (Z.of_nat (length lines) < target_start h)%Z →
  _apply_single_hunk lines h = lines ++ new_segment h.
Proof.
  intros Hpast. rewrite apply_single_hunk_slices.
  assert (0 ≤ old_count h)%Z by (unfold old_count; lia).
  rewrite slice_upto, slice_from by lia.
  rewrite take_ge, drop_ge by lia. by rewrite app_nil_r.
Qed.

(** What a Modify of a file that can be read does: the dry run succeeds
    whatever the hunks say; the real run succeeds and leaves the hunks'
    result in the file, unless the backup or the write is refused. *)
Lemma handle_modified_outcome pf p w text :
  files w !! p = Some text →
  let content := Py.concat (_apply_hunks_to_content (Py.splitlines_keepends text) pf) in
  returns (_handle_modified_file pf p true) w (λ r w', success r = true ∧ w' = w)
  ∧ returns (_handle_modified_file pf p false) w (λ r w',
      (success r = true ∧ files w' !! p = Some content)
      ∨ (success r = false
         ∧ ((∃ e w1, _create_backup p w = (inl e, w1))
            ∨ (∃ bp w1 e, _create_backup p w = (inr bp, w1)
                          ∧ write_text p content w1 = (inl e, w1))))).
Proof.
  intros Hp content. split.
  - run_io. rewrite (exists_of_file _ _ _ Hp); simpl.
    unfold read_text. by rewrite Hp.
  - run_io. rewrite (exists_of_file _ _ _ Hp); simpl.
    unfold read_text at 1. rewrite Hp.
    destruct (_create_backup p w) as [[e|bp] w1] eqn:Hbk; simpl.
    { right. split; [done|]. left. by eexists _, _. }
    fold content.
    destruct (write_text p content w1) as [[e|[]] w2] eqn:Hwr; simpl.
    + right. split; [done|]. right.
      pose proof Hwr as Hinv.
      apply store_inv in Hinv as [(e' & [= <-] & ->) | ([=] & _)]. by eexists _, _, _.
    + left. split; [done|].
      apply store_inv in Hwr as [(e' & [=] & _) | (_ & ->)]. simpl.
      apply lookup_insert_eq.
Qed.

(** C10: a hunk whose target start is past the end of the buffer does not
    fail: its lines that are not removed are appended after the lines of the
    buffer. For a file that can be read and a patch made of that hunk, the
    dry run reports success, and the real run reports success with the
    appended text in the file, unless the platform refuses the backup or the
    write. *)
Theorem hunk_past_the_end_is_appended
    (lines : list string) (h : Hunk) (pf : PatchedFile) (p : Path) (w : World)
    (text : string) :
  ((Z.of_nat (length lines) < target_start h)%Z →
   _apply_single_hunk lines h = lines ++ new_segment h)
  ∧ (hunks pf = [h] → files w !! p = Some text →
     (Z.of_nat (length (Py.splitlines_keepends text)) < target_start h)%Z →
     let content := text +:+ Py.concat (new_segment h) in
     returns (_handle_modified_file pf p true) w (λ r w', success r = true ∧ w' = w)
     ∧ returns (_handle_modified_file pf p false) w (λ r w',
         (success r = true ∧ files w' !! p = Some content)
         ∨ (success r = false
            ∧ ((∃ e w1, _create_backup p w = (inl e, w1))
               ∨ (∃ bp w1 e, _create_backup p w = (inr bp, w1)
                             ∧ write_text p content w1 = (inl e, w1)))))).
Proof.
  split; [apply apply_single_hunk_past_end|].
  intros Hpf Hp Hpast content.
  pose proof (handle_modified_outcome pf p w text Hp) as Hout. simpl in Hout.
  assert (Hcontent :
    Py.concat (_apply_hunks_to_content (Py.splitlines_keepends text) pf) = content).
  { unfold _apply_hunks_to_content. rewrite Hpf. simpl.
    rewrite apply_single_hunk_past_end by done.
    by rewrite concat_app, concat_splitlines. }
  by rewrite Hcontent in Hout.
Qed.

Lemma hunk_past_the_end_is_appended_witness :
  ((Z.of_nat (length C8_inputs.abc) < target_start C10_inputs.far_hunk)%Z
   ∧ _apply_single_hunk C8_inputs.abc C10_inputs.far_hunk
     = C8_inputs.abc ++ [Sample.ln "j"; Sample.ln "k"])
  ∧ returns (_handle_modified_file C10_inputs.far_patch C3_inputs.a_py true) Sample.w0
      (λ r w', success r = true ∧ w' = Sample.w0).
Proof.
  pose proof (hunk_past_the_end_is_appended C8_inputs.abc C10_inputs.far_hunk
                C10_inputs.far_patch C3_inputs.a_py Sample.w0
                (Sample.ln "a" +:+ Sample.ln "b" +:+ Sample.ln "c")) as [H1 H2].
  split.
  - split; [reflexivity|]. apply H1. reflexivity.
  - apply H2; reflexivity.
Defined.

(** The real run of that patch: the two lines land after line 3. *)
Example far_hunk_is_written_at_the_end :
  let out := _apply_single_file_patch C10_inputs.far_patch Sample.repo false
                                      Sample.w0 in
  success out.1 = true ∧ hunks_applied out.1 = 1 ∧ hunks_failed out.1 = 0
  ∧ files out.2 !! C3_inputs.a_py
    = Some (Sample.ln "a" +:+ Sample.ln "b" +:+ Sample.ln "c"
            +:+ Sample.ln "j" +:+ Sample.ln "k").
Proof. vm_compute. done. Qed.

(** ** Stale hunks (C1) *)

(** From a target start of 1 on, the lines the code sets aside for checking
    are the slice the hunk replaces. *)
Lemma file_lines_to_check_segment (lines : list string) (h : Hunk) :
  (1 ≤ target_start h)%Z →
  file_lines_to_check lines h
  = take (length (old_segment h)) (drop (Z.to_nat (target_start h - 1)) lines).
Proof.
  intros Hts. unfold file_lines_to_check. rewrite old_count_segment.
  rewrite slice_between by lia. do 2 f_equal. lia.
Qed.

(** C1 on the code: where the file differs from the hunk's old lines, the
    hunk is applied all the same, the call reports success, and the file is
    rewritten. *)
Theorem stale_hunk_is_applied_without_a_check :
  let lines := C8_inputs.abc in
  let out := _apply_single_file_patch C1_inputs.stale_patch Sample.repo false
                                      Sample.w0 in
  file_lines_to_check lines C1_inputs.stale_hunk = [Sample.ln "b"]
  ∧ old_segment C1_inputs.stale_hunk = [Sample.ln "X"]
  ∧ _apply_single_hunk lines C1_inputs.stale_hunk
    = [Sample.ln "a"; Sample.ln "Y"; Sample.ln "c"]
  ∧ files Sample.w0 !! C3_inputs.a_py
    = Some (Sample.ln "a" +:+ Sample.ln "b" +:+ Sample.ln "c")
  ∧ success out.1 = true ∧ error out.1 = None ∧ hunks_failed out.1 = 0
  ∧ files out.2 !! C3_inputs.a_py
    = Some (Sample.ln "a" +:+ Sample.ln "Y" +:+ Sample.ln "c").
Proof. vm_compute. done. Qed.

(** ** Round trip (C2) *)

(** C2 on the code: the two hunks are a well-formed diff between [A] and
    [B], and applying them to [A] gives a file that is not [B]: the second
    hunk is placed by its target start while the first, which adds a line
    above it, is not applied yet, so the line e is doubled. *)
Theorem round_trip_fails_for_two_hunks :
  Diff.describes C2_inputs.A (hunks C2_inputs.A_to_B) C2_inputs.B
  ∧ _apply_hunks_to_content C2_inputs.A C2_inputs.A_to_B
    = [Sample.ln "a"; Sample.ln "X"; Sample.ln "b"; Sample.ln "c";
       Sample.ln "d"; Sample.ln "e"; Sample.ln "e"; Sample.ln "F"]
  ∧ _apply_hunks_to_content C2_inputs.A C2_inputs.A_to_B ≠ C2_inputs.B.
Proof.
  split_and!.
  - vm_compute. reflexivity.
  - reflexivity.
  - vm_compute. discriminate.
Qed.

Lemma segments_are_sides (h : Hunk) :
  Forall (λ l, line_type l ≠ NoNewline) (hunk_lines h) →
  old_segment h = Diff.old_side h ∧ new_segment h = Diff.new_side h.
Proof.
  unfold old_segment, new_segment, Diff.old_side, Diff.new_side.
  induction 1 as [|[[] v] ls Hl _ [IH1 IH2]]; simpl; [done|..];
    try (by rewrite ?IH1, ?IH2); done.
Qed.

(** Where the round trip does hold: a diff of one hunk with non-empty
    ranges. *)
Lemma round_trip_one_hunk (A B : list string) (h : Hunk) (pf : PatchedFile) :
  hunks pf = [h] →
  Forall (λ l, line_type l ≠ NoNewline) (hunk_lines h) →
  source_length h ≠ 0%Z → target_length h ≠ 0%Z → (1 ≤ target_start h)%Z →
  Diff.describes A [h] B → _apply_hunks_to_content A pf = B.
Proof.
  intros Hpf Hlines Hsl Htl Hts Hd.
  destruct (segments_are_sides h Hlines) as [Hold Hnew].
  unfold Diff.describes in Hd. simpl in Hd.
  case_bool_decide as Hok; [|done].
  destruct Hok as (_ & _ & _ & _ & Hpos). injection Hd as <-.
  unfold Diff.range_pos in *.
  rewrite (proj2 (Z.eqb_neq _ _) Hsl) in *. rewrite (proj2 (Z.eqb_neq _ _) Htl) in Hpos.
  rewrite Nat.sub_0_r in *. simpl in Hpos.
  unfold _apply_hunks_to_content. rewrite Hpf. simpl.
  rewrite apply_single_hunk_splice by done. unfold spec_apply_hunk, splice.
  by rewrite Hpos, Hold, Hnew, <-app_assoc.
Qed.

(** ** The specification's first scenario *)

(** Five lines, lines 2 and 3 replaced by one: four lines are left, two are
    counted as removed and one as added. *)
Example two_lines_replaced_by_one :
  let out := _apply_single_file_patch Scenario_inputs.two_for_one Sample.repo false
                                      Scenario_inputs.five_lines in
  success out.1 = true ∧ lines_removed out.1 = 2 ∧ lines_added out.1 = 1
  ∧ hunks_applied out.1 = 1
  ∧ (Py.splitlines_keepends <$> files out.2 !! C3_inputs.a_py)
    = Some [Sample.ln "a"; Sample.ln "X"; Sample.ln "d"; Sample.ln "e"].
Proof. vm_compute. done. Qed.

(** * Further properties *)

(** ** Hunks at the edges of the buffer *)

(** X1: a hunk whose target start is 0 is placed with the index -1, which
    Python counts from the end: the buffer loses its last line in front of
    the new lines, and what follows them starts at the last line (a hunk
    without old lines) or at the line [count - 1] of the whole buffer. *)
Theorem hunk_at_target_start_zero (lines : list string) (h : Hunk) :
  target_start h = 0%Z →
  _apply_single_hunk lines h
  = take (length lines - 1) lines ++ new_segment h
    ++ drop (if decide (old_segment h = []) then length lines - 1
             else length (old_segment h) - 1) lines.
Proof.
  intros Hts. rewrite apply_single_hunk_slices, old_count_segment, Hts.
  f_equal; [|f_equal].
  - unfold Py.slice, Py.adjust_index; simpl.
    rewrite Z.sub_0_r, drop_0. f_equal. lia.
  - destruct (decide (old_segment h = [])) as [-> | Hne].
    + unfold Py.slice, Py.adjust_index; simpl.
      rewrite take_ge by (rewrite length_drop; lia). f_equal. lia.
    + assert (0 < length (old_segment h)) by (destruct (old_segment h); simpl; [done|lia]).
      rewrite slice_from by lia. f_equal. lia.
Qed.

Lemma hunk_at_target_start_zero_witness :
  target_start Hunk_inputs.delete_first = 0%Z
  ∧ _apply_single_hunk C8_inputs.abc Hunk_inputs.delete_first
    = [Sample.ln "a"; Sample.ln "b"; Sample.ln "a"; Sample.ln "b"; Sample.ln "c"].
Proof.
  split; [reflexivity|].
  exact (hunk_at_target_start_zero C8_inputs.abc Hunk_inputs.delete_first eq_refl).
Defined.

(** ** What a hunk's old lines are used for *)

Lemma same_effect_apply (lines : list string) (h h' : Hunk) :
  same_effect h h' → _apply_single_hunk lines h' = _apply_single_hunk lines h.
Proof.
  intros (Hts & Hnew & Hlen).
  by rewrite !apply_single_hunk_slices, !old_count_segment, Hts, Hnew, Hlen.
Qed.

(** X2: the text of a hunk's context and removed lines never enters the
    result: two hunks with the same target start, the same new lines and as
    many old lines give the same buffer, and two patches made of such hunks
    give the same file. *)
Theorem old_lines_count_only_by_their_number
    (lines : list string) (h h' : Hunk) (pf pf' : PatchedFile) :
  (same_effect h h' → _apply_single_hunk lines h' = _apply_single_hunk lines h)
  ∧ (Forall2 same_effect (hunks pf) (hunks pf') →
     _apply_hunks_to_content lines pf' = _apply_hunks_to_content lines pf).
Proof.
  split; [apply same_effect_apply|].
  intros Hall. unfold _apply_hunks_to_content.
  apply Forall2_reverse in Hall. revert lines.
  induction Hall as [|x y l k Hxy _ IH]; intros lines; simpl; [done|].
  by rewrite (same_effect_apply _ _ _ Hxy), IH.
Qed.

Lemma old_lines_count_only_by_their_number_witness :
  same_effect Hunk_inputs.fresh_hunk C1_inputs.stale_hunk
  ∧ _apply_single_hunk C8_inputs.abc C1_inputs.stale_hunk
    = _apply_single_hunk C8_inputs.abc Hunk_inputs.fresh_hunk.
Proof.
  assert (H : same_effect Hunk_inputs.fresh_hunk C1_inputs.stale_hunk).
  { by split_and!. }
  split; [exact H|].
  exact (proj1 (old_lines_count_only_by_their_number C8_inputs.abc
                  Hunk_inputs.fresh_hunk C1_inputs.stale_hunk
                  C1_inputs.stale_patch C1_inputs.stale_patch) H).
Defined.

(** X3: the dry run of a Modify checks that the file is there and can be
    read, and nothing about the hunks: for a file that can be read it reports
    success, with the counts of the patch and every hunk as applied, and
    leaves the world as it was. *)
Theorem modify_dry_run_accepts_any_hunks
    (pf : PatchedFile) (p : Path) (w : World) (text : string) :
  files w !! p = Some text →
  _handle_modified_file pf p true w
  = (inr (ok_result (str p) (added pf) (removed pf) (length (hunks pf)) None), w).
Proof.
  intros Hp. run_io. rewrite (exists_of_file _ _ _ Hp); simpl.
  unfold read_text. by rewrite Hp.
Qed.

Lemma modify_dry_run_accepts_any_hunks_witness :
  files Sample.w0 !! C3_inputs.a_py
  = Some (Sample.ln "a" +:+ Sample.ln "b" +:+ Sample.ln "c")
  ∧ _handle_modified_file C1_inputs.stale_patch C3_inputs.a_py true Sample.w0
    = (inr (ok_result "/repo/a.py" 1 1 1 None), Sample.w0).
Proof.
  split; [reflexivity|].
  exact (modify_dry_run_accepts_any_hunks C1_inputs.stale_patch C3_inputs.a_py
           Sample.w0 _ eq_refl).
Defined.

(** ** Where the round trip holds *)




Lemma round_trip_one_hunk_witness :
  hunks C3_inputs.replace_b = [Hunk_inputs.replace_b_hunk]
  ∧ Diff.describes C8_inputs.abc [Hunk_inputs.replace_b_hunk]
      [Sample.ln "a"; Sample.ln "B"; Sample.ln "c"]
  ∧ _apply_hunks_to_content C8_inputs.abc C3_inputs.replace_b
    = [Sample.ln "a"; Sample.ln "B"; Sample.ln "c"].
Proof.
  assert (Hd : Diff.describes C8_inputs.abc [Hunk_inputs.replace_b_hunk]
                 [Sample.ln "a"; Sample.ln "B"; Sample.ln "c"]).
  { vm_compute. reflexivity. }
  split_and!; [reflexivity | exact Hd |].
  refine (round_trip_one_hunk _ _ Hunk_inputs.replace_b_hunk C3_inputs.replace_b
            eq_refl _ _ _ _ Hd).
  - repeat constructor; discriminate.
  - discriminate.
  - discriminate.
  - simpl. lia.
Defined.

(** ** The shape of a result *)

Lemma handle_added_shape pf p dry_run w :
  returns (_handle_added_file pf p dry_run) w (λ r _,
    r = ok_result (str p) (added pf) 0 (length (hunks pf)) None
    ∨ ∃ msg, r = failed_result (str p) msg).
Proof.
  run_io. destruct (exists_ p w); simpl; [right; by eexists|].
  destruct dry_run; [by left|].
  destruct (mkdir (parent p) true true w) as [[e|[]] w1]; simpl; [right; by eexists|].
  match goal with |- context [write_text ?q ?c w1] =>
    destruct (write_text q c w1) as [[e|[]] w2] end; simpl; [right; by eexists|].
  by left.
Qed.

Lemma handle_removed_shape pf p dry_run w :
  returns (_handle_removed_file pf p dry_run) w (λ r _,
    (∃ bp, r = ok_result (str p) 0 (removed pf) (length (hunks pf)) bp
           ∧ (is_Some bp ↔ dry_run = false))
    ∨ ∃ msg, r = failed_result (str p) msg).
Proof.
  run_io. destruct (exists_ p w); simpl; [|right; by eexists].
  destruct dry_run.
  { left. exists None. split; [done|]. split; [by intros []|done]. }
  destruct (_create_backup p w) as [[e|bp] w1]; simpl; [right; by eexists|].
  destruct (unlink p w1) as [[e|[]] w2]; simpl; [right; by eexists|].
  left. eexists. split; [done|]. by split.
Qed.

Lemma handle_modified_shape pf p dry_run w :
  returns (_handle_modified_file pf p dry_run) w (λ r _,
    (∃ bp, r = ok_result (str p) (added pf) (removed pf) (length (hunks pf)) bp
           ∧ (is_Some bp ↔ dry_run = false))
    ∨ ∃ msg, r = failed_result (str p) msg).
Proof.
  run_io. destruct (exists_ p w); simpl; [|right; by eexists].
  destruct (read_text p w) as [[e|text] w1] eqn:Hread;
    apply read_text_inv in Hread as [-> _]; simpl; [right; by eexists|].
  destruct dry_run.
  { left. exists None. split; [done|]. split; [by intros []|done]. }
  destruct (_create_backup p w) as [[e|bp] w1]; simpl; [right; by eexists|].
  match goal with |- context [write_text ?q ?c w1] =>
    destruct (write_text q c w1) as [[e|[]] w2] end; simpl; [right; by eexists|].
  left. eexists. split; [done|]. by split.
Qed.

(** X5: every result of a file operation names the resolved path, reports
    no failed hunk and no warning, and is of one of two kinds: a success,
    with no error, every hunk counted as applied, the counts of the patch
    and a backup path exactly in a non-dry-run Modify or Remove; or a
    failure, with an error, all counts 0 and no backup path, also when the
    backup was made before the failure. *)
Theorem results_are_well_formed
    (pf : PatchedFile) (dir : Path) (dry_run : bool) (w : World) :
  let r := (_apply_single_file_patch pf dir dry_run w).1 in
  file_path r = str (_resolve_file_path (path pf) dir)
  ∧ well_formed_result pf dry_run r.
Proof.
  unfold _apply_single_file_patch, well_formed_result, expected_added, expected_removed.
  set (p := _resolve_file_path (path pf) dir).
  destruct (is_added_file pf) eqn:Hadd; [|destruct (is_removed_file pf) eqn:Hrem].
  - pose proof (handle_added_shape pf p dry_run w) as H. unfold returns in H.
    destruct (_handle_added_file pf p dry_run w) as [[e|r] w']; [done|].
    destruct H as [-> | [msg ->]]; simpl; split_and!; try done;
      try (by eexists); split; [by intros [? ?] | by intros [_ ?]].
  - pose proof (handle_removed_shape pf p dry_run w) as H. unfold returns in H.
    destruct (_handle_removed_file pf p dry_run w) as [[e|r] w']; [done|].
    destruct H as [(bp & -> & Hbp) | [msg ->]]; simpl; split_and!; try done;
      try (by eexists); rewrite Hbp; (split; [by intros -> | by intros [-> _]]).
  - pose proof (handle_modified_shape pf p dry_run w) as H. unfold returns in H.
    destruct (_handle_modified_file pf p dry_run w) as [[e|r] w']; [done|].
    destruct H as [(bp & -> & Hbp) | [msg ->]]; simpl; split_and!; try done;
      try (by eexists); rewrite Hbp; (split; [by intros -> | by intros [-> _]]).
Qed.

(** ** What a file operation leaves alone *)

Lemma create_backup_frame p w r w' :
  _create_backup p w = (r, w') →
  readonly w' = readonly w
  ∧ ∃ dst, dst ≠ p ∧ ∀ q, q ≠ dst → files w' !! q = files w !! q.
Proof.
  unfold _create_backup, bind, ret, now_strftime. intros H.
  destruct (mkdir _ false true w) as [[e|[]] w1] eqn:Hmk;
    apply mkdir_inv in Hmk as (mk & Hf & Hro & _).
  - injection H as <- <-. split; [done|].
    exists (joinpath p "backup"). split; [|by rewrite Hf].
    intros Heq. apply (f_equal (λ q, length (parts q))) in Heq.
    unfold joinpath in Heq. simpl in Heq. rewrite length_app in Heq. simpl in Heq. lia.
  - match type of H with context [copy2 ?s ?d ?w2] =>
      destruct (copy2 s d w2) as [[e|[]] w3] eqn:Hcp end;
      apply copy2_inv in Hcp as [(e' & He & ->) | (He & text & dst & Hp & Hne & ->)];
      try discriminate; injection H as <- <-; simpl.
    + split; [done|]. exists (joinpath p "backup"). split; [|by rewrite Hf].
      intros Heq. apply (f_equal (λ q, length (parts q))) in Heq.
      unfold joinpath in Heq. simpl in Heq. rewrite length_app in Heq. simpl in Heq. lia.
    + split; [done|]. exists dst. split; [done|].
      intros q Hq. by rewrite lookup_insert_ne, Hf.
Qed.

Lemma handle_added_frame pf p dry_run w :
  returns (_handle_added_file pf p dry_run) w (λ _ w',
    readonly w' = readonly w ∧ ∀ q, q ≠ p → files w' !! q = files w !! q).
Proof.
  run_io. destruct (exists_ p w); simpl; [done|].
  destruct dry_run; [done|].
  destruct (mkdir (parent p) true true w) as [[e|[]] w1] eqn:Hmk;
    apply mkdir_inv in Hmk as (mk & Hf & Hro & _); simpl.
  { by rewrite Hf. }
  match goal with |- context [write_text ?q ?c w1] =>
    destruct (write_text q c w1) as [[e|[]] w2] eqn:Hwr end;
    apply store_inv in Hwr as [(e' & He & ->) | (He & ->)]; try discriminate; simpl.
  - by rewrite Hf.
  - split; [done|]. intros q Hq. by rewrite lookup_insert_ne, Hf.
Qed.

Lemma handle_removed_frame pf p dry_run w :
  returns (_handle_removed_file pf p dry_run) w (λ _ w',
    readonly w' = readonly w ∧ ∃ dst, dst ≠ p ∧ same_files_but p dst w w').
Proof.
  assert (Hsame : ∃ dst, dst ≠ p ∧ same_files_but p dst w w).
  { exists (joinpath p "backup"). split; [|done].
    intros Heq. apply (f_equal (λ q, length (parts q))) in Heq.
    unfold joinpath in Heq. simpl in Heq. rewrite length_app in Heq. simpl in Heq. lia. }
  run_io. destruct (exists_ p w); simpl; [|done].
  destruct dry_run; [done|].
  destruct (_create_backup p w) as [[e|bp] w1] eqn:Hbk;
    apply create_backup_frame in Hbk as (Hro & dst & Hne & Hf); simpl.
  { split; [done|]. exists dst. split; [done|]. intros q _ Hq. by apply Hf. }
  destruct (unlink p w1) as [[e|[]] w2] eqn:Hun;
    apply unlink_inv in Hun as [(e' & He & ->) | (He & _ & ->)]; try discriminate; simpl.
  - split; [done|]. exists dst. split; [done|]. intros q _ Hq. by apply Hf.
  - split; [done|]. exists dst. split; [done|]. intros q Hqp Hq. simpl.
    rewrite lookup_delete_ne by done. by apply Hf.
Qed.

Lemma handle_modified_frame pf p dry_run w :
  returns (_handle_modified_file pf p dry_run) w (λ _ w',
    readonly w' = readonly w ∧ ∃ dst, dst ≠ p ∧ same_files_but p dst w w').
Proof.
  assert (Hsame : ∃ dst, dst ≠ p ∧ same_files_but p dst w w).
  { exists (joinpath p "backup"). split; [|done].
    intros Heq. apply (f_equal (λ q, length (parts q))) in Heq.
    unfold joinpath in Heq. simpl in Heq. rewrite length_app in Heq. simpl in Heq. lia. }
  run_io. destruct (exists_ p w); simpl; [|done].
  destruct (read_text p w) as [[e|text] w1] eqn:Hread;
    apply read_text_inv in Hread as [-> _]; simpl; [done|].
  destruct dry_run; [done|].
  destruct (_create_backup p w) as [[e|bp] w1] eqn:Hbk;
    apply create_backup_frame in Hbk as (Hro & dst & Hne & Hf); simpl.
  { split; [done|]. exists dst. split; [done|]. intros q _ Hq. by apply Hf. }
  match goal with |- context [write_text ?q ?c w1] =>
    destruct (write_text q c w1) as [[e|[]] w2] eqn:Hwr end;
    apply store_inv in Hwr as [(e' & He & ->) | (He & ->)]; try discriminate; simpl.
  - split; [done|]. exists dst. split; [done|]. intros q _ Hq. by apply Hf.
  - split; [done|]. exists dst. split; [done|]. intros q Hqp Hq. simpl.
    rewrite lookup_insert_ne by done. by apply Hf.
Qed.

(** X6: one file operation changes at most two regular files: its target,
    and one other path, the copy of the backup, which is never the target;
    every other file keeps its text, and the permissions stay as they
    were. *)
Theorem a_file_operation_touches_two_files
    (pf : PatchedFile) (dir : Path) (dry_run : bool) (w : World) :
  let p := _resolve_file_path (path pf) dir in
  let w' := (_apply_single_file_patch pf dir dry_run w).2 in
  readonly w' = readonly w ∧ ∃ dst, dst ≠ p ∧ same_files_but p dst w w'.
Proof.
  unfold _apply_single_file_patch.
  set (p := _resolve_file_path (path pf) dir). simpl.
  destruct (is_added_file pf); [|destruct (is_removed_file pf)].
  - pose proof (handle_added_frame pf p dry_run w) as H. unfold returns in H.
    destruct (_handle_added_file pf p dry_run w) as [[e|r] w']; [done|].
    destruct H as [Hro Hf]. split; [done|].
    exists (joinpath p "backup"). split; [|intros q Hq _; by apply Hf].
    intros Heq. apply (f_equal (λ q, length (parts q))) in Heq.
    unfold joinpath in Heq. simpl in Heq. rewrite length_app in Heq. simpl in Heq. lia.
  - pose proof (handle_removed_frame pf p dry_run w) as H. unfold returns in H.
    by destruct (_handle_removed_file pf p dry_run w) as [[e|r] w'].
  - pose proof (handle_modified_frame pf p dry_run w) as H. unfold returns in H.
    by destruct (_handle_modified_file pf p dry_run w) as [[e|r] w'].
Qed.

(** ** Operations on a path that holds no regular file *)

Lemma create_backup_needs_file p w r w' :
  files w !! p = None → _create_backup p w = (r, w') →
  (∃ e, r = inl e) ∧ files w' = files w.
Proof.
  intros Hp H. apply create_backup_inv in H
    as (mk & _ & [(e & -> & Hf & _) | (bp & text & dst & _ & Hsome & _)]).
  - split; [by eexists|done].
  - congruence.
Qed.

Lemma modify_needs_file pf p dry_run w :
  files w !! p = None →
  returns (_handle_modified_file pf p dry_run) w (λ r w', success r = false ∧ w' = w).
Proof.
  intros Hp. run_io. destruct (exists_ p w); simpl; [|done].
  destruct (read_text p w) as [[e|text] w1] eqn:Hread;
    apply read_text_inv in Hread
      as [-> [(text' & He & Hsome) | (e' & He & _)]]; try discriminate; simpl.
  - done.
  - congruence.
Qed.

Lemma remove_needs_file pf p w :
  files w !! p = None →
  returns (_handle_removed_file pf p false) w
          (λ r w', success r = false ∧ files w' = files w).
Proof.
  intros Hp. run_io. destruct (exists_ p w); simpl; [|done].
  destruct (_create_backup p w) as [[e|bp] w1] eqn:Hbk;
    apply (create_backup_needs_file _ _ _ _ Hp) in Hbk as [[e' He] Hf];
    try discriminate.
  done.
Qed.

(** X7: a path that holds no regular file (nothing, or a directory) can be
    neither modified nor removed: a Modify fails in both modes and changes
    nothing, and a non-dry-run Remove fails and leaves every file as it
    was. *)
Theorem mutation_needs_a_regular_file (pf : PatchedFile) (p : Path) (w : World) :
  files w !! p = None →
  (∀ dry_run, returns (_handle_modified_file pf p dry_run) w
                      (λ r w', success r = false ∧ w' = w))
  ∧ returns (_handle_removed_file pf p false) w
            (λ r w', success r = false ∧ files w' = files w).
Proof.
  intros Hp. split.
  - intros dry_run. by apply modify_needs_file.
  - by apply remove_needs_file.
Qed.

Lemma mutation_needs_a_regular_file_witness :
  files Sample.w0 !! Sample.repo = None
  ∧ exists_ Sample.repo Sample.w0 = true
  ∧ returns (_handle_removed_file C3_inputs.delete_a_py Sample.repo false) Sample.w0
            (λ r w', success r = false ∧ files w' = files Sample.w0).
Proof.
  split; [reflexivity|]. split; [reflexivity|].
  exact (proj2 (mutation_needs_a_regular_file C3_inputs.delete_a_py Sample.repo
                  Sample.w0 eq_refl)).
Defined.

(** ** Applying a patch a second time *)

(** X8: an Add or a Remove works once. After a non-dry-run Add that
    succeeded, any further Add of the path fails with "Cannot add file that
    already exists" and changes nothing, so the file keeps the content of
    the first one. After a non-dry-run Remove that succeeded, a further
    non-dry-run Remove of the path fails and the file stays absent. *)
Theorem add_and_remove_work_once (pf pf' : PatchedFile) (p : Path) (w : World) :
  returns (_handle_added_file pf p false) w (λ r w1,
    success r = true →
    ∀ dry_run, returns (_handle_added_file pf' p dry_run) w1 (λ r' w2,
      r' = failed_result (str p) "Cannot add file that already exists" ∧ w2 = w1))
  ∧ returns (_handle_removed_file pf p false) w (λ r w1,
    success r = true →
    returns (_handle_removed_file pf' p false) w1 (λ r' w2,
      success r' = false ∧ files w2 !! p = None)).
Proof.
  split.
  - run_io. destruct (exists_ p w); simpl; [done|].
    destruct (mkdir (parent p) true true w) as [[e|[]] w1]; simpl; [done|].
    match goal with |- context [write_text ?q ?c w1] =>
      destruct (write_text q c w1) as [[e|[]] w2] eqn:Hwr end; simpl; [done|].
    intros _ dry_run.
    apply store_inv in Hwr as [(e & [=] & _) | (_ & ->)].
    assert (Hex : exists_ p (set_files (<[p:=added_content pf]> (files w1))
                                       (EvWrite p (added_content pf)) w1) = true).
    { eapply exists_of_file. simpl. apply lookup_insert_eq. }
    by rewrite Hex.
  - pose proof (handle_removed_deletes pf p w) as Hdel. unfold returns in *.
    destruct (_handle_removed_file pf p false w) as [[e|r] w1]; [done|].
    intros Hr. specialize (Hdel Hr).
    pose proof (remove_needs_file pf' p w1 Hdel) as Hagain.
    unfold returns in Hagain.
    destruct (_handle_removed_file pf' p false w1) as [[e|r'] w2]; [done|].
    destruct Hagain as [Hfail Hf]. split; [done|]. by rewrite Hf.
Qed.

(** ** The aggregate of a batch *)

Lemma successes_app rs rs' : successes (rs ++ rs') = successes rs + successes rs'.
Proof. unfold successes. by rewrite List.filter_app, length_app. Qed.

Lemma successes_failures rs : successes rs + failures rs = length rs.
Proof.
  unfold successes, failures. induction rs as [|r rs IH]; simpl; [done|].
  destruct (success r); simpl; lia.
Qed.

Lemma failures_none rs : failures rs = 0 ↔ forallb success rs = true.
Proof.
  unfold failures. induction rs as [|r rs IH]; simpl; [done|].
  destruct (success r); simpl; [done|]. split; [lia|done].
Qed.

Lemma add_unique_fold_NoDup (xs fm : list string) :
  NoDup fm → NoDup (fold_left add_unique xs fm).
Proof.
  revert fm. induction xs as [|x xs IH]; intros fm Hfm; simpl; [done|].
  apply IH. unfold add_unique. case_bool_decide; [done|].
  apply NoDup_app. split_and!; [done| |apply NoDup_singleton].
  intros y Hy ->%list_elem_of_singleton. done.
Qed.

Lemma add_unique_fold_elem (xs fm : list string) (f : string) :
  f ∈ fold_left add_unique xs fm ↔ f ∈ fm ∨ f ∈ xs.
Proof.
  revert fm. induction xs as [|x xs IH]; intros fm; simpl.
  { split; [by left|]. intros [?|H]; [done|]. by apply elem_of_nil in H. }
  rewrite IH, elem_of_cons. unfold add_unique. case_bool_decide as Hx.
  - split; [intros [?|?]; auto|]. intros [?|[->|?]]; auto.
  - rewrite elem_of_app, list_elem_of_singleton.
    split; [intros [[?|?]|?]; auto | intros [?|[?|?]]; auto].
Qed.

Section Tally.
Variable PatchSet : string → exn + list PatchedFile.
Variables (dir : Path) (dry_run : bool).

Lemma file_step_tally st pf :
  let r := (_apply_single_file_patch pf dir dry_run st.2).1 in
  l_patches_applied (file_step dir dry_run st pf).1
  = l_patches_applied st.1 + successes [r]
  ∧ l_files_modified (file_step dir dry_run st pf).1
    = fold_left add_unique (map file_path (List.filter success [r]))
                (l_files_modified st.1).
Proof.
  unfold file_step, successes.
  destruct (_apply_single_file_patch pf dir dry_run st.2) as [r w1]; simpl.
  destruct (success r); simpl; split; try done; lia.
Qed.

Lemma files_loop_tally fs acc w :
  let out := fold_left (file_step dir dry_run) fs (acc, w) in
  let rs := (run_files dir dry_run fs w).1 in
  l_patches_applied out.1 = l_patches_applied acc + successes rs
  ∧ l_files_modified out.1
    = fold_left add_unique (map file_path (List.filter success rs))
                (l_files_modified acc).
Proof.
  revert acc w. induction fs as [|pf fs IH]; intros acc w; simpl.
  { unfold successes; simpl. split; [lia|done]. }
  pose proof (file_step_tally (acc, w) pf) as HT.
  pose proof (file_step_run dir dry_run (acc, w) pf) as HS. simpl in HT, HS.
  destruct (file_step dir dry_run (acc, w) pf) as [acc1 w1'].
  destruct (_apply_single_file_patch pf dir dry_run w) as [r w1].
  destruct HT as [T1 T2]. destruct HS as (_ & S2 & _). simpl in *. subst w1'.
  destruct (IH acc1 w1) as [IH1 IH2].
  destruct (run_files dir dry_run fs w1) as [rs w2]. simpl in *.
  split.
  - rewrite IH1, T1. change (r :: rs) with ([r] ++ rs). rewrite successes_app. lia.
  - rewrite IH2, T2. by destruct (success r).
Qed.

Lemma patches_loop_tally ps i acc w :
  let out := process_from PatchSet dir dry_run i ps (acc, w) in
  let rs := (run_patches PatchSet dir dry_run i ps w).1 in
  l_patches_applied out.1 = l_patches_applied acc + successes rs
  ∧ l_files_modified out.1
    = fold_left add_unique (map file_path (List.filter success rs))
                (l_files_modified acc).
Proof.
  revert i acc w. induction ps as [|p ps IH]; intros i acc w; simpl.
  { unfold successes; simpl. split; [lia|done]. }
  unfold patch_step, run_patch.
  destruct (_parse_patch PatchSet p) as [e|fs]; simpl.
  - match goal with |- context [process_from _ _ _ _ ps (?a, w)] =>
      destruct (IH (S i) a w) as [IH1 IH2] end.
    destruct (run_patches PatchSet dir dry_run (S i) ps w) as [rs w2]; simpl in *.
    split; [by rewrite IH1 | by rewrite IH2].
  - destruct (files_loop_tally fs acc w) as [F1 F2].
    destruct (files_loop dir dry_run fs acc w) as (_ & G2 & _).
    destruct (fold_left (file_step dir dry_run) fs (acc, w)) as [acc1 w1].
    destruct (IH (S i) acc1 w1) as [IH1 IH2].
    destruct (run_files dir dry_run fs w) as [rs1 w1']. simpl in *. subst w1'.
    destruct (run_patches PatchSet dir dry_run (S i) ps w1) as [rs w2]; simpl in *.
    split.
    + rewrite IH1, F1, successes_app. lia.
    + by rewrite IH2, F2, List.filter_app, map_app, fold_left_app.
Qed.

Lemma apply_patches_tally patches w :
  let out := (apply_patches PatchSet patches dir dry_run w).1 in
  patches_applied out = successes (results out)
  ∧ patches_failed out = failures (results out)
  ∧ files_modified out
    = fold_left add_unique (map file_path (List.filter success (results out))) [].
Proof.
  unfold apply_patches.
  destruct (patches_loop PatchSet dir dry_run patches 0 no_locals w) as (L1 & _ & L3).
  destruct (patches_loop_tally patches 0 no_locals w) as [T1 T2].
  destruct (process_from _ _ _ _ _ _) as [acc w']. simpl in *.
  by rewrite L1, L3, T1, T2.
Qed.

End Tally.

(** X9: the counters of a batch are those of its results: [patches_applied]
    is the number of results that succeeded, [patches_failed] the number of
    those that failed (a diff that does not parse counting once), together
    the number of results, and [success] is set exactly when no result
    failed. *)
Theorem batch_counters_match_results
    (PatchSet : string → exn + list PatchedFile) (patches : list PatchContent)
    (dir : Path) (dry_run : bool) (w : World) :
  let out := (apply_patches PatchSet patches dir dry_run w).1 in
  patches_applied out = successes (results out)
  ∧ patches_failed out = failures (results out)
  ∧ patches_applied out + patches_failed out = length (results out)
  ∧ overall_success out = forallb success (results out).
Proof.
  intros out.
  destruct (apply_patches_tally PatchSet dir dry_run patches w) as (HA & HF & _).
  fold out in HA, HF. split_and!; [done|done|..].
  - rewrite HA, HF. apply successes_failures.
  - assert (Hs : overall_success out = (patches_failed out =? 0)).
    { subst out. unfold apply_patches.
      by destruct (process_from _ _ _ _ _ _) as [acc w']. }
    rewrite Hs, HF.
    destruct (forallb success (results out)) eqn:Hall.
    + apply Nat.eqb_eq. by apply failures_none.
    + apply Nat.eqb_neq. intros H0. apply failures_none in H0. congruence.
Qed.

(** X10: [files_modified] lists each path once, and exactly the paths of the
    results that succeeded; in a dry run too, where no file is modified. *)
Theorem files_modified_are_the_successes
    (PatchSet : string → exn + list PatchedFile) (patches : list PatchContent)
    (dir : Path) (dry_run : bool) (w : World) :
  let out := (apply_patches PatchSet patches dir dry_run w).1 in
  NoDup (files_modified out)
  ∧ ∀ f, f ∈ files_modified out
         ↔ ∃ r, r ∈ results out ∧ success r = true ∧ file_path r = f.
Proof.
  intros out.
  destruct (apply_patches_tally PatchSet dir dry_run patches w) as (_ & _ & HM).
  fold out in HM. rewrite HM. split.
  - apply add_unique_fold_NoDup, NoDup_nil_2.
  - intros f. rewrite add_unique_fold_elem, list_elem_of_fmap. split.
    + intros [H|(r & -> & Hr)]; [by apply elem_of_nil in H|].
      apply list_elem_of_In, List.filter_In in Hr as [Hin Hs].
      exists r. by rewrite list_elem_of_In.
    + intros (r & Hin & Hs & <-). right. exists r. split; [done|].
      apply list_elem_of_In, List.filter_In. by rewrite <-list_elem_of_In.
Qed.

(** ** One result at least for every diff *)

Section Every_diff.
Variable PatchSet : string → exn + list PatchedFile.
Variables (dir : Path) (dry_run : bool).

Lemma parse_patch_not_empty c fs : _parse_patch PatchSet c = inr fs → fs ≠ [].
Proof.
  unfold _parse_patch. destruct c as [text|ps].
  - destruct (PatchSet text) as [e|[|pf ps]]; [done|done|]. by intros [= <-].
  - destruct ps as [|pf ps]; [done|]. by intros [= <-].
Qed.

Lemma run_patch_yields i c w :
  1 ≤ length (run_patch PatchSet dir dry_run i c w).1.
Proof.
  unfold run_patch. destruct (_parse_patch PatchSet c) as [e|fs] eqn:Hp; simpl; [lia|].
  rewrite run_files_length. apply parse_patch_not_empty in Hp.
  destruct fs; [done|simpl; lia].
Qed.

Lemma run_patches_yield ps i w :
  length ps ≤ length (run_patches PatchSet dir dry_run i ps w).1.
Proof.
  revert i w. induction ps as [|c ps IH]; intros i w; simpl; [lia|].
  pose proof (run_patch_yields i c w) as H1.
  destruct (run_patch PatchSet dir dry_run i c w) as [rs w1].
  specialize (IH (S i) w1).
  destruct (run_patches PatchSet dir dry_run (S i) ps w1) as [rs' w2].
  simpl in *. rewrite length_app. lia.
Qed.

End Every_diff.

(** X11: a batch of n diffs gives at least n results, for a diff that parses
    has at least one file and every other diff gives its one failed result.
    A text in which [unidiff] finds no file counts as a diff that does not
    parse: alone in a batch it gives the one result [patch_1], failed with
    the error of the empty patch under the prefix of a parse failure, and
    the world is left as it was. *)
Theorem every_diff_yields_a_result
    (PatchSet : string → exn + list PatchedFile) (patches : list PatchContent)
    (text : string) (dir : Path) (dry_run : bool) (w : World) :
  length patches ≤ length (results (apply_patches PatchSet patches dir dry_run w).1)
  ∧ (PatchSet text = inr [] →
     let out := apply_patches PatchSet [PatchText text] dir dry_run w in
     results out.1
     = [failed_result "patch_1" "Failed to parse patch: Empty or invalid patch content"]
     ∧ overall_success out.1 = false ∧ out.2 = w).
Proof.
  split.
  - unfold apply_patches.
    destruct (patches_loop PatchSet dir dry_run patches 0 no_locals w) as (L1 & _).
    destruct (process_from _ _ _ _ _ _) as [acc w']. simpl in *.
    rewrite L1. apply run_patches_yield.
  - intros Hempty. unfold apply_patches; simpl.
    unfold patch_step, _parse_patch. rewrite Hempty. by simpl.
Qed.

Lemma every_diff_yields_a_result_witness :
  Sample_diffs.PatchSet "LGTM" = inr []
  ∧ results (apply_patches Sample_diffs.PatchSet [PatchText "LGTM"]
                           Sample.repo false Sample.w0).1
    = [failed_result "patch_1" "Failed to parse patch: Empty or invalid patch content"].
Proof.
  split; [reflexivity|].
  exact (proj1 (proj2 (every_diff_yields_a_result Sample_diffs.PatchSet []
                         "LGTM" Sample.repo false Sample.w0) eq_refl)).
Defined.

(** ** The prefix of a diff path *)

Lemma substring_all s : String.substring 0 (String.length s) s = s.
Proof. induction s as [|c s IH]; simpl; [done|]. by rewrite IH. Qed.

Lemma strip_two (c d : ascii) (rest : string) :
  String.substring 2 (String.length (String c (String d rest)) - 2)
                   (String c (String d rest)) = rest.
Proof. simpl. rewrite Nat.sub_0_r. apply substring_all. Qed.

Lemma resolve_is_place_of_clean patch_path target_dir :
  _resolve_file_path patch_path target_dir = place (clean_path_of patch_path) target_dir.
Proof. done. Qed.

(** X12: the prefix [a/] or [b/] is stripped once, by its two characters,
    and what is left is placed as it reads: under the target directory when
    it is relative, and as it is, whatever the target directory, when it is
    absolute, which a path that starts with [a//] or [b//] is though the
    diff path is relative. *)
Theorem prefix_is_stripped_once (rest : string) (target_dir : Path) :
  _resolve_file_path ("a/" +:+ rest) target_dir = place rest target_dir
  ∧ _resolve_file_path ("b/" +:+ rest) target_dir = place rest target_dir
  ∧ is_absolute (Path_of ("a/" +:+ rest)) = false
  ∧ (is_absolute (Path_of rest) = true →
     _resolve_file_path ("a/" +:+ rest) target_dir = Path_of rest).
Proof.
  assert (Ha : clean_path_of ("a/" +:+ rest) = rest).
  { unfold clean_path_of.
    change ("a/" +:+ rest) with (String "a" (String "/" rest)).
    replace (String.prefix "a/" (String "a" (String "/" rest))) with true
      by (simpl; by destruct rest).
    simpl orb. cbv iota. apply strip_two. }
  assert (Hb : clean_path_of ("b/" +:+ rest) = rest).
  { unfold clean_path_of.
    change ("b/" +:+ rest) with (String "b" (String "/" rest)).
    replace (String.prefix "b/" (String "b" (String "/" rest))) with true
      by (simpl; by destruct rest).
    rewrite orb_true_r. apply strip_two. }
  rewrite !resolve_is_place_of_clean, Ha, Hb. split_and!; try done.
  intros Habs. unfold place. by rewrite Habs.
Qed.

Lemma prefix_is_stripped_once_witness :
  is_absolute (Path_of "/etc/hosts") = true
  ∧ _resolve_file_path "a//etc/hosts" Sample.repo
    = {| is_absolute := true; parts := ["etc"; "hosts"] |}
  ∧ _resolve_file_path "a/b/mod.py" Sample.repo
    = {| is_absolute := true; parts := ["repo"; "b"; "mod.py"] |}.
Proof.
  split; [reflexivity|]. split.
  - exact (proj2 (proj2 (proj2 (prefix_is_stripped_once "/etc/hosts" Sample.repo)))
                 eq_refl).
  - exact (proj1 (prefix_is_stripped_once "b/mod.py" Sample.repo)).
Defined.

(** ** Where the backup goes *)

Lemma mkdir_one_keeps p ok w r w' :
  mkdir_one p ok w = (r, w') →
  files w' = files w ∧ clock w' = clock w ∧ ticks w' = ticks w.
Proof.
  unfold mkdir_one, try_except, os_mkdir, raise. intros H.
  destruct (parent_error p w).
  { destruct (is_FileNotFoundError e); [|destruct (negb ok || negb (is_dir p w))];
      by injection H as <- <-. }
  destruct (exists_ p w).
  { simpl in H. destruct (negb ok || negb (is_dir p w)); by injection H as <- <-. }
  destruct (bool_decide (parent p ∈ readonly w)).
  { simpl in H. destruct (negb ok || negb (is_dir p w)); by injection H as <- <-. }
  by injection H as <- <-.
Qed.

Lemma copy2_to src dst w w' :
  copy2 src dst w = (inr tt, w') →
  ∃ text, files w !! src = Some text
          ∧ w' = set_files
                   (<[(if is_dir dst w then joinpath dst (name src) else dst) := text]>
                      (files w))
                   (EvCopy src (if is_dir dst w then joinpath dst (name src) else dst))
                   w.
Proof.
  unfold copy2, bind, raise. intros H.
  set (dst' := if is_dir dst w then joinpath dst (name src) else dst) in *.
  destruct (bool_decide (src = dst') && exists_ src w); [done|].
  destruct (read_text src w) as [[e|text] w1] eqn:Hread;
    apply read_text_inv in Hread as [-> Hread]; [done|].
  destruct Hread as [(text' & [= <-] & Hsrc) | (e & [=] & _)].
  apply store_inv in H as [(e & [=] & _) | (_ & ->)]. by exists text.
Qed.

(** A backup that succeeds went to [backup_path_at], and that path, unless
    it is a directory, holds the text of the file. *)
Lemma create_backup_at p w bp w' :
  _create_backup p w = (inr bp, w') →
  bp = backup_path_at p (clock w (ticks w))
  ∧ ∃ text, files w !! p = Some text
            ∧ (is_dir bp w' = false → files w' !! bp = Some text).
Proof.
  unfold _create_backup, bind, ret, now_strftime. intros H.
  destruct (mkdir _ false true w) as [[e|[]] w1] eqn:Hmk; [done|].
  unfold mkdir in Hmk. apply mkdir_one_keeps in Hmk as (Hf & Hc & Ht).
  rewrite Hc, Ht in H. fold (backup_path_at p (clock w (ticks w))) in H.
  set (bp0 := backup_path_at p (clock w (ticks w))) in *.
  match type of H with context [copy2 ?s ?d ?w2] =>
    destruct (copy2 s d w2) as [[e|[]] w3] eqn:Hcp end; [done|].
  injection H as <- <-. split; [done|].
  apply copy2_to in Hcp as (text & Hp & ->). simpl in *.
  exists text. rewrite <-Hf. split; [done|].
  unfold is_dir; simpl. fold (is_dir bp0 w1). intros Hdir.
  unfold is_dir at 1; simpl. fold (is_dir bp0 w1). rewrite Hdir.
  apply lookup_insert_eq.
Qed.

(** X13: the backup of a file goes to the directory [.qualityforge_backups]
    beside it, under the file's name, the time to the second and
    [.backup]. Two backups of one file made within the same second
    therefore go to the same path, and the second replaces the first: the
    path then holds the text the file had at the second backup. *)
Theorem backups_of_one_second_collide
    (p : Path) (w w1 w_mid w2 : World) (bp1 bp2 : Path) :
  _create_backup p w = (inr bp1, w1) →
  _create_backup p w_mid = (inr bp2, w2) →
  clock w_mid (ticks w_mid) = clock w (ticks w) →
  bp1 = backup_path_at p (clock w (ticks w))
  ∧ bp2 = bp1
  ∧ (is_dir bp1 w2 = false → files w2 !! bp1 = files w_mid !! p).
Proof.
  intros H1 H2 Hclock.
  apply create_backup_at in H1 as (-> & _).
  apply create_backup_at in H2 as (-> & text & Hp & Hcopy).
  rewrite Hclock in *. split_and!; [done|done|].
  intros Hdir. by rewrite Hp, Hcopy.
Qed.

Lemma backups_of_one_second_collide_witness :
  files Backup_inputs.backed_up_again !! C3_inputs.backup_of_a_py
  = files Backup_inputs.after_first !! C3_inputs.a_py.
Proof.
  assert (H1 : _create_backup C3_inputs.a_py Sample.w0
               = (inr C3_inputs.backup_of_a_py,
                  (_create_backup C3_inputs.a_py Sample.w0).2)).
  { assert (E : (_create_backup C3_inputs.a_py Sample.w0).1
                = inr C3_inputs.backup_of_a_py) by (vm_compute; reflexivity).
    exact (eq_trans (surjective_pairing _) (f_equal (λ r, (r, _)) E)). }
  assert (H2 : _create_backup C3_inputs.a_py Backup_inputs.after_first
               = (inr C3_inputs.backup_of_a_py, Backup_inputs.backed_up_again)).
  { assert (E : (_create_backup C3_inputs.a_py Backup_inputs.after_first).1
                = inr C3_inputs.backup_of_a_py) by (vm_compute; reflexivity).
    exact (eq_trans (surjective_pairing _) (f_equal (λ r, (r, _)) E)). }
  assert (Hclock : clock Backup_inputs.after_first (ticks Backup_inputs.after_first)
                   = clock Sample.w0 (ticks Sample.w0))
    by (vm_compute; reflexivity).
  assert (Hdir : is_dir C3_inputs.backup_of_a_py Backup_inputs.backed_up_again = false)
    by (vm_compute; reflexivity).
  exact (proj2 (proj2 (backups_of_one_second_collide
                         C3_inputs.a_py Sample.w0
                         (_create_backup C3_inputs.a_py Sample.w0).2
                         Backup_inputs.after_first Backup_inputs.backed_up_again
                         C3_inputs.backup_of_a_py C3_inputs.backup_of_a_py
                         H1 H2 Hclock)) Hdir).
Defined.


(** ** Validation *)

Lemma validate_file_run dir vr pf w :
  ∃ vr', validate_file dir vr pf w = (inr vr', w)
    ∧ Validation.valid vr' = Validation.valid vr
    ∧ Validation.files vr' = Validation.files vr ++ [file_info_of dir w pf]
    ∧ Validation.warnings vr' = Validation.warnings vr
    ∧ ∃ new, Validation.errors vr' = Validation.errors vr ++ new
             ∧ length new = length (refused [file_info_of dir w pf]).
Proof.
  unfold validate_file, bind, path_exists, ret, file_info_of, refused; simpl.
  destruct (is_added_file pf); [|destruct (is_removed_file pf)];
    destruct (exists_ (_resolve_file_path (path pf) dir) w); simpl;
    eexists; (split; [reflexivity|]); simpl; split_and!; try reflexivity;
    first [ by eexists [_] | exists []; by rewrite app_nil_r ].
Qed.

Lemma refused_app xs ys : refused (xs ++ ys) = refused xs ++ refused ys.
Proof. unfold refused. induction xs as [|x xs IH]; simpl; [done|]. rewrite IH. by destruct (negb _). Qed.

Lemma validate_files_run dir fs : ∀ vr w,
  ∃ vr', validate_files dir vr fs w = (inr vr', w)
    ∧ Validation.valid vr' = Validation.valid vr
    ∧ Validation.files vr' = Validation.files vr ++ map (file_info_of dir w) fs
    ∧ Validation.warnings vr' = Validation.warnings vr
    ∧ ∃ new, Validation.errors vr' = Validation.errors vr ++ new
             ∧ length new = length (refused (map (file_info_of dir w) fs)).
Proof.
  induction fs as [|pf fs IH]; intros vr w; simpl.
  { exists vr. unfold ret. rewrite app_nil_r. split_and!; try done.
    exists []. by rewrite app_nil_r. }
  unfold bind.
  destruct (validate_file_run dir vr pf w) as (vr1 & -> & Hv & Hf & Hw & new1 & He & Hn).
  destruct (IH vr1 w) as (vr2 & -> & Hv2 & Hf2 & Hw2 & new2 & He2 & Hn2).
  exists vr2. split_and!; [done|congruence| |congruence|].
  - by rewrite Hf2, Hf, <-app_assoc.
  - exists (new1 ++ new2). split; [by rewrite He2, He, <-app_assoc|].
    pose proof (f_equal length (refused_app [file_info_of dir w pf]
                                            (map (file_info_of dir w) fs))) as E.
    rewrite length_app in E. rewrite length_app, Hn, Hn2. symmetry. exact E.
Qed.

Lemma refused_none infos :
  (length (refused infos) =? 0) = forallb Validation.can_apply infos.
Proof.
  unfold refused. induction infos as [|i infos IH]; simpl; [done|].
  by destruct (Validation.can_apply i).
Qed.

Section Validating.

Variable PatchSet : string → exn + list PatchedFile.

Lemma validate_patch_run c dir w :
  ∃ r, validate_patch PatchSet c dir w = (inr r, w)
    ∧ Validation.warnings r = []
    ∧ match _parse_patch PatchSet c with
      | inl e =>
          Validation.valid r = false ∧ Validation.files r = []
          ∧ Validation.errors r = ["Patch validation failed: " +:+ str_exn e]
      | inr fs =>
          Validation.files r = map (file_info_of dir w) fs
          ∧ Validation.valid r = forallb Validation.can_apply (Validation.files r)
          ∧ length (Validation.errors r) = length (refused (Validation.files r))
      end.
Proof.
  unfold validate_patch, try_except, bind, ret.
  destruct (_parse_patch PatchSet c) as [e|fs]; [by eexists|].
  destruct (validate_files_run dir fs
              {| Validation.valid := true; Validation.files := [];
                 Validation.warnings := []; Validation.errors := [] |} w)
    as (vr & -> & _ & Hf & Hw & new & He & Hn).
  simpl in Hf, Hw, He. eexists. split; [reflexivity|]. simpl.
  rewrite Hf, He, Hn. split_and!; try done. apply refused_none.
Qed.

(** X14: [validate_patch] always returns a report and changes nothing. A
    patch that does not parse gives an invalid report with no file and one
    error. A patch that parses gives one entry per file, in the order of
    the patch, each as the world shows the file; the report is valid
    exactly when every entry can be applied, it has one error for each
    entry that cannot, and it never has a warning. *)
Theorem validation_reports_every_file (c : PatchContent) (dir : Path) (w : World) :
  ∃ r, validate_patch PatchSet c dir w = (inr r, w)
    ∧ Validation.warnings r = []
    ∧ match _parse_patch PatchSet c with
      | inl e =>
          Validation.valid r = false ∧ Validation.files r = []
          ∧ Validation.errors r = ["Patch validation failed: " +:+ str_exn e]
      | inr fs =>
          Validation.files r = map (file_info_of dir w) fs
          ∧ Validation.valid r = forallb Validation.can_apply (Validation.files r)
          ∧ length (Validation.errors r) = length (refused (Validation.files r))
      end.
Proof. apply validate_patch_run. Qed.

End Validating.


(** ** Validation and the dry run *)

Lemma dry_file_outcome pf dir w :
  success (_apply_single_file_patch pf dir true w).1
  = if is_added_file pf then negb (exists_ (_resolve_file_path (path pf) dir) w)
    else if is_removed_file pf then exists_ (_resolve_file_path (path pf) dir) w
    else exists_ (_resolve_file_path (path pf) dir) w
         && bool_decide (is_Some (files w !! _resolve_file_path (path pf) dir)).
Proof.
  unfold _apply_single_file_patch.
  set (p := _resolve_file_path (path pf) dir).
  destruct (is_added_file pf); [|destruct (is_removed_file pf)].
  - unfold _handle_added_file, bind, path_exists, ret. by destruct (exists_ p w).
  - unfold _handle_removed_file, bind, path_exists, ret. by destruct (exists_ p w).
  - unfold _handle_modified_file, bind, path_exists, ret, try_except, read_text.
    destruct (exists_ p w); simpl; [|done].
    destruct (files w !! p) as [text|]; simpl; [done|]. by destruct (is_dir p w).
Qed.

Lemma dry_file_can_apply pf dir w :
  success (_apply_single_file_patch pf dir true w).1 = true →
  Validation.can_apply (file_info_of dir w pf) = true.
Proof.
  rewrite dry_file_outcome. unfold file_info_of; simpl.
  destruct (is_added_file pf); [done|]. destruct (is_removed_file pf); [done|].
  by intros [? _]%andb_true_iff.
Qed.

Lemma can_apply_dry_file pf dir w :
  Validation.can_apply (file_info_of dir w pf) = true →
  (is_modification pf = true → is_dir (_resolve_file_path (path pf) dir) w = false) →
  success (_apply_single_file_patch pf dir true w).1 = true.
Proof.
  rewrite dry_file_outcome. unfold file_info_of, is_modification; simpl.
  destruct (is_added_file pf); [done|]. destruct (is_removed_file pf); [done|].
  simpl. intros Hex Hdir. rewrite Hex. simpl. apply bool_decide_eq_true.
  specialize (Hdir eq_refl). unfold exists_ in Hex. unfold is_dir in Hdir.
  rewrite Hdir, orb_false_r in Hex.
  by apply bool_decide_eq_true, elem_of_dom in Hex.
Qed.

Lemma run_files_dry dir fs w :
  run_files dir true fs w
  = (map (λ pf, (_apply_single_file_patch pf dir true w).1) fs, w).
Proof.
  induction fs as [|pf fs IH]; simpl; [done|].
  pose proof (apply_single_file_dry pf dir w) as Hw.
  destruct (_apply_single_file_patch pf dir true w) as [r w1]. simpl in Hw. subst w1.
  by rewrite IH.
Qed.

Lemma no_failures rs : (failures rs =? 0) = forallb success rs.
Proof.
  unfold failures. induction rs as [|r rs IH]; simpl; [done|].
  by destruct (success r).
Qed.

Section Dry_run_and_validation.

Variable PatchSet : string → exn + list PatchedFile.

Lemma dry_run_of_one_patch c dir w :
  overall_success (apply_patches PatchSet [c] dir true w).1
  = match _parse_patch PatchSet c with
    | inl _ => false
    | inr fs => forallb (λ pf, success (_apply_single_file_patch pf dir true w).1) fs
    end.
Proof.
  unfold apply_patches; simpl. unfold patch_step.
  destruct (_parse_patch PatchSet c) as [e|fs]; [reflexivity|].
  destruct (files_loop dir true fs no_locals w) as (_ & _ & Hfail).
  destruct (fold_left (file_step dir true) fs (no_locals, w)) as [acc w'].
  simpl in *. rewrite Hfail, run_files_dry, no_failures. simpl.
  clear Hfail. induction fs as [|pf fs IH]; simpl; [done|]. by rewrite IH.
Qed.

(** X15: a patch whose dry run succeeds is valid to [validate_patch]: in
    the same world, with the same directory, a dry run of the one patch
    that reports overall success means that [validate_patch] returns a
    report with [valid] set. *)
Theorem dry_run_success_means_valid (c : PatchContent) (dir : Path) (w : World) :
  overall_success (apply_patches PatchSet [c] dir true w).1 = true →
  returns (validate_patch PatchSet c dir) w (λ r _, Validation.valid r = true).
Proof.
  rewrite dry_run_of_one_patch. intros Hdry. unfold returns.
  destruct (validate_patch_run PatchSet c dir w) as (r & -> & _ & Hr).
  destruct (_parse_patch PatchSet c) as [e|fs]; [done|].
  destruct Hr as (Hf & -> & _). rewrite Hf.
  apply forallb_forall. intros info (pf & <- & Hpf)%in_map_iff.
  apply dry_file_can_apply. by eapply forallb_forall in Hdry.
Qed.

(** X16: the converse holds when no file the patch changes in place is a
    directory: a patch that [validate_patch] finds valid then passes the
    dry run. *)
Theorem valid_patch_passes_the_dry_run (c : PatchContent) (dir : Path) (w : World) :
  returns (validate_patch PatchSet c dir) w (λ r _, Validation.valid r = true) →
  (∀ fs pf, _parse_patch PatchSet c = inr fs → In pf fs → is_modification pf = true →
            is_dir (_resolve_file_path (path pf) dir) w = false) →
  overall_success (apply_patches PatchSet [c] dir true w).1 = true.
Proof.
  rewrite dry_run_of_one_patch. unfold returns.
  destruct (validate_patch_run PatchSet c dir w) as (r & -> & _ & Hr).
  destruct (_parse_patch PatchSet c) as [e|fs].
  { destruct Hr as (-> & _). done. }
  destruct Hr as (Hf & -> & _). rewrite Hf. intros Hvalid Hdirs.
  apply forallb_forall. intros pf Hpf. apply can_apply_dry_file.
  - eapply forallb_forall in Hvalid; [done|]. by apply in_map.
  - intros Hmod. by eapply Hdirs.
Qed.

(** X17: a directory named as the file to change is where the two part:
    [validate_patch] finds the patch valid, because the path exists, and
    the dry run fails, because the path cannot be read. *)
Theorem validation_accepts_a_directory (pf : PatchedFile) (dir : Path) (w : World) :
  is_modification pf = true →
  is_dir (_resolve_file_path (path pf) dir) w = true →
  files w !! _resolve_file_path (path pf) dir = None →
  returns (validate_patch PatchSet (PatchObject [pf]) dir) w
          (λ r _, Validation.valid r = true)
  ∧ overall_success (apply_patches PatchSet [PatchObject [pf]] dir true w).1 = false.
Proof.
  unfold is_modification. intros [Ha Hr]%andb_true_iff Hdir Hnone.
  apply negb_true_iff in Ha, Hr. split.
  - unfold returns.
    destruct (validate_patch_run PatchSet (PatchObject [pf]) dir w) as (r & -> & _ & H).
    simpl in H. destruct H as (Hf & -> & _). rewrite Hf. simpl.
    rewrite Ha. unfold exists_. unfold is_dir in Hdir. rewrite Hdir.
    by rewrite orb_true_r.
  - rewrite dry_run_of_one_patch. simpl.
    rewrite dry_file_outcome, Ha, Hr, Hnone. simpl.
    rewrite andb_false_r. done.
Qed.

End Dry_run_and_validation.

Lemma dry_run_success_means_valid_witness :
  overall_success
    (apply_patches Sample_diffs.PatchSet [PatchText Sample_diffs.add_new_text]
                   Sample.repo true Sample.w0).1 = true
  ∧ returns (validate_patch Sample_diffs.PatchSet
               (PatchText Sample_diffs.add_new_text) Sample.repo)
            Sample.w0 (λ r _, Validation.valid r = true).
Proof.
  split; [reflexivity|].
  apply (dry_run_success_means_valid Sample_diffs.PatchSet
           (PatchText Sample_diffs.add_new_text) Sample.repo Sample.w0).
  reflexivity.
Defined.

Lemma valid_patch_passes_the_dry_run_witness :
  overall_success
    (apply_patches Sample_diffs.PatchSet [PatchText Sample_diffs.replace_b_text]
                   Sample.repo true Sample.w0).1 = true.
Proof.
  apply (valid_patch_passes_the_dry_run Sample_diffs.PatchSet
           (PatchText Sample_diffs.replace_b_text) Sample.repo Sample.w0).
  - vm_compute. reflexivity.
  - intros fs pf Hparse Hin Hmod.
    assert (_parse_patch Sample_diffs.PatchSet (PatchText Sample_diffs.replace_b_text)
            = inr [C3_inputs.replace_b]) as Hp by reflexivity.
    rewrite Hp in Hparse. injection Hparse as <-.
    destruct Hin as [<- | []]. reflexivity.
Defined.

Lemma validation_accepts_a_directory_witness :
  returns (validate_patch Sample_diffs.PatchSet
             (PatchObject [Validation_inputs.edit_src]) Sample.repo)
          Validation_inputs.w_src (λ r _, Validation.valid r = true)
  ∧ overall_success
      (apply_patches Sample_diffs.PatchSet [PatchObject [Validation_inputs.edit_src]]
                     Sample.repo true Validation_inputs.w_src).1 = false.
Proof.
  apply (validation_accepts_a_directory Sample_diffs.PatchSet
           Validation_inputs.edit_src Sample.repo Validation_inputs.w_src);
    vm_compute; reflexivity.
Defined.


(** ** The text of an added file *)

Lemma endswith_rstrip s : Py.endswith_nl (Py.rstrip_nl s) = false.
Proof.
  induction s as [|c s IH]; [done|]. simpl.
  destruct (Py.rstrip_nl s) as [|d r] eqn:Hr.
  - destruct (Ascii.eqb c Py.LF) eqn:Hc; [done|]. simpl. exact Hc.
  - exact IH.
Qed.

Lemma truthy_append_r a b : Py.truthy b = true → Py.truthy (a +:+ b) = true.
Proof. destruct a; [done|]. by rewrite append_cons. Qed.

Lemma endswith_append a b :
  Py.truthy b = true → Py.endswith_nl (a +:+ b) = Py.endswith_nl b.
Proof.
  intros Hb. induction a as [|c a IH]; [done|]. rewrite append_cons.
  pose proof (truthy_append_r a b Hb) as Hab.
  destruct (a +:+ b) as [|d r]; [done|]. exact IH.
Qed.

Lemma eqb_empty s : String.eqb s "" = negb (Py.truthy s).
Proof. by destruct s. Qed.

Lemma join_snoc sep ts x :
  ts ≠ [] → Py.join sep (ts ++ [x]) = Py.join sep ts +:+ sep +:+ x.
Proof.
  induction ts as [|y ts IH]; [done|]. intros _.
  destruct ts as [|z ts]; [done|].
  change (Py.join sep ((y :: z :: ts) ++ [x]))
    with (y +:+ sep +:+ Py.join sep ((z :: ts) ++ [x])).
  rewrite IH by done.
  change (Py.join sep (y :: z :: ts)) with (y +:+ sep +:+ Py.join sep (z :: ts)).
  by rewrite !append_assoc.
Qed.

Lemma join_nl_concat ts :
  ts ≠ [] → Py.join Py.nl ts +:+ Py.nl = Py.concat (map (λ t, t +:+ Py.nl) ts).
Proof.
  induction ts as [|y ts IH]; [done|]. intros _.
  destruct ts as [|z ts].
  { simpl. by rewrite append_empty_r. }
  change (Py.join Py.nl (y :: z :: ts)) with (y +:+ Py.nl +:+ Py.join Py.nl (z :: ts)).
  rewrite map_cons, concat_cons, <-IH by done. by rewrite !append_assoc.
Qed.

Lemma values_of_texts ls :
  Forall one_line ls → map value ls = map (λ t, t +:+ Py.nl) (map line_text ls).
Proof.
  induction 1 as [|l ls Hl _ IH]; [done|]. simpl. by rewrite IH, <-Hl.
Qed.

(** The text [_handle_added_file] makes of the lines [ls]. *)
Lemma joined_lines ls :
  Forall one_line ls →
  (if negb (String.eqb (Py.join Py.nl (map line_text ls)) "")
      && negb (Py.endswith_nl (Py.join Py.nl (map line_text ls)))
   then Py.join Py.nl (map line_text ls) +:+ Py.nl
   else Py.join Py.nl (map line_text ls))
  = Py.concat (map value (if ends_blank ls then removelast ls else ls)).
Proof.
  destruct ls as [|l ls _] using rev_ind; [done|].
  intros [Hls Hl]%Forall_app. unfold ends_blank. rewrite last_snoc, removelast_last.
  rewrite map_app. cbn [map].
  destruct (Py.truthy (line_text l)) eqn:Ht; simpl negb; cbv iota.
  - rewrite values_of_texts by (apply Forall_app; done).
    rewrite map_app. cbn [map].
    set (ts := map line_text ls) in *. set (x := line_text l) in *.
    assert (Hend : Py.endswith_nl x = false) by apply endswith_rstrip.
    destruct ts as [|y ts'] eqn:Hts.
    { simpl. rewrite eqb_empty, Ht, Hend. simpl. by rewrite append_empty_r. }
    rewrite <-Hts. assert (Hne : ts ≠ []) by (by rewrite Hts). clear Hts.
    rewrite join_snoc by done. rewrite eqb_empty.
    rewrite truthy_append_r by (by apply truthy_append_r).
    rewrite endswith_append by (by apply truthy_append_r).
    rewrite endswith_append by done. rewrite Hend. simpl negb. cbv iota. simpl andb. cbv iota.
    rewrite map_app, concat_app, <-join_nl_concat by done.
    simpl. by rewrite append_empty_r, !append_assoc.
  - rewrite values_of_texts by done.
    destruct (line_text l) eqn:Hx; [|done].
    set (ts := map line_text ls) in *.
    destruct ts as [|y ts'] eqn:Hts; [done|].
    rewrite <-Hts. assert (Hne : ts ≠ []) by (by rewrite Hts). clear Hts.
    rewrite join_snoc by done. rewrite append_empty_r.
    rewrite eqb_empty, truthy_append_r, endswith_append by done.
    simpl. by apply join_nl_concat.
Qed.

(** X18: when each Added line is its text and one line feed, and the last
    of them is not blank, the text an Add writes is the Added lines as they
    stand in the diff, one after the other. *)
Theorem add_writes_the_added_lines (pf : PatchedFile) :
  Forall one_line (added_lines pf) →
  ends_blank (added_lines pf) = false →
  added_content pf = Py.concat (map value (added_lines pf)).
Proof.
  intros Hone Hblank. rewrite added_content_joined. unfold joined_added_lines.
  cbv zeta. rewrite joined_lines by done. by rewrite Hblank.
Qed.

(** X19: a blank last line is lost: when each Added line is its text and
    one line feed, and the last of them is blank, the text an Add writes is
    the Added lines without the last one. *)
Theorem add_drops_a_blank_last_line (pf : PatchedFile) :
  Forall one_line (added_lines pf) →
  ends_blank (added_lines pf) = true →
  added_content pf = Py.concat (map value (removelast (added_lines pf))).
Proof.
  intros Hone Hblank. rewrite added_content_joined. unfold joined_added_lines.
  cbv zeta. rewrite joined_lines by done. by rewrite Hblank.
Qed.

Lemma add_writes_the_added_lines_witness :
  added_content C7_inputs.three_lines
  = Py.concat (map value (added_lines C7_inputs.three_lines)).
Proof.
  apply (add_writes_the_added_lines C7_inputs.three_lines).
  - repeat constructor.
  - reflexivity.
Defined.

Lemma add_drops_a_blank_last_line_witness :
  added_content Add_inputs.blank_end = Sample.ln "a"
  ∧ Py.concat (map value (added_lines Add_inputs.blank_end))
    = Sample.ln "a" +:+ Sample.ln "".
Proof.
  split; [|reflexivity].
  rewrite (add_drops_a_blank_last_line Add_inputs.blank_end).
  - reflexivity.
  - repeat constructor.
  - reflexivity.
Defined.
